(** * mcp_messaging.server: a shallow embedding and its verified properties

    The development follows [src/mcp_messaging/server.py]:

    - Python values: [str] as a sequence of code points, JSON values and
      dictionaries as they come out of [json.load];
    - [load_client_config] over a model of the directories walked from the
      working directory upwards;
    - the asynchronous methods of [MessagingServer] and the callback
      dispatcher as programs over the calls they make to their
      collaborators (queue backend, clock, HTTP client, event loop);
    - the in-memory queue backend, which lives in a module of its own, as
      an interpretation of those calls. *)

From Stdlib Require Import ZArith NArith QArith String Ascii List Lia Bool.
From stdpp Require Import base option list gmap.
Import ListNotations.

Set Implicit Arguments.
Set Warnings "-register-all".
Local Open Scope N_scope.

(* ===================================================================== *)
(** ** Python strings *)
(* ===================================================================== *)

(** A Python [str] is a sequence of Unicode code points. *)
Definition char := N.
Abbreviation str := (list N).

Module Utf8.

(** Source literals are written as Rocq strings, that is as UTF-8 bytes;
    [decode] turns them into code points. *)
Definition bytes_of (s : string) : list N :=
  List.map N_of_ascii (list_ascii_of_string s).

Definition cont (b : N) : N := b - 128.

Fixpoint decode (bs : list N) : str :=
  match bs with
  | [] => []
  | b0 :: t1 =>
    if b0 <? 128 then b0 :: decode t1
    else
      match t1 with
      | [] => []
      | b1 :: t2 =>
        if b0 <? 224 then ((b0 - 192) * 64 + cont b1) :: decode t2
        else
          match t2 with
          | [] => []
          | b2 :: t3 =>
            if b0 <? 240
            then ((b0 - 224) * 4096 + cont b1 * 64 + cont b2) :: decode t3
            else
              match t3 with
              | [] => []
              | b3 :: t4 =>
                ((b0 - 240) * 262144 + cont b1 * 4096 + cont b2 * 64 + cont b3)
                  :: decode t4
              end
          end
      end
  end.

End Utf8.

Definition lit (s : string) : str := Utf8.decode (Utf8.bytes_of s).

(** [ch.isspace()] for a code point, as CPython's [_PyUnicode_IsWhitespace]. *)
Definition isspace (c : char) : bool :=
  ((9 <=? c) && (c <=? 13)) || ((28 <=? c) && (c <=? 32))
  || (c =? 133) || (c =? 160) || (c =? 5760)
  || ((8192 <=? c) && (c <=? 8202))
  || (c =? 8232) || (c =? 8233) || (c =? 8239) || (c =? 8287) || (c =? 12288).

Fixpoint lstrip (s : str) : str :=
  match s with
  | [] => []
  | c :: s' => if isspace c then lstrip s' else s
  end.

Definition rstrip (s : str) : str := rev (lstrip (rev s)).

(** [s.strip()] *)
Definition strip (s : str) : str := rstrip (lstrip s).

(** Truth value of a string: [not s] holds of the empty string only. *)
Definition truthy_str (s : str) : bool :=
  match s with [] => false | _ :: _ => true end.

(** [not s.strip()] *)
Definition blank (s : str) : bool := negb (truthy_str (strip s)).

(** [s.startswith(p)] *)
Fixpoint startswith (s p : str) : bool :=
  match p, s with
  | [], _ => true
  | _ :: _, [] => false
  | a :: p', b :: s' => (a =? b) && startswith s' p'
  end.

(** Decimal rendering of a non-negative integer, as [str(n)]. *)
Definition digit (n : N) : char := 48 + n.

Fixpoint decimal_fuel (fuel : nat) (n : N) (acc : str) : str :=
  match fuel with
  | O => acc
  | S f =>
    let acc' := digit (n mod 10) :: acc in
    if n <? 10 then acc' else decimal_fuel f (n / 10) acc'
  end.

Definition decimal (n : N) : str := decimal_fuel (S (N.to_nat (N.log2 n))) n [].

(** ["\n".join(parts)] *)
Fixpoint join (sep : str) (parts : list str) : str :=
  match parts with
  | [] => []
  | [p] => p
  | p :: rest => p ++ sep ++ join sep rest
  end.

(* ===================================================================== *)
(** ** JSON values and dictionaries *)
(* ===================================================================== *)

(** What [json.load] returns. An object keeps its members in document
    order; as in a Python [dict] built from them, a later member with the
    same key wins ([dict_get] reads from the right). Numbers are carried
    exactly: the server never computes with them. *)
Inductive JSON : Type :=
| JNull
| JBool (b : bool)
| JNum (q : Q)
| JStr (s : str)
| JArr (items : list JSON)
| JObj (members : list (str * JSON)).

Abbreviation dict := (list (str * JSON)).

Definition str_eqb (a b : str) : bool := bool_decide (a = b).

(** [d.get(key)] on a dictionary: [None] when the key is absent. *)
Fixpoint dict_get (key : str) (d : dict) : option JSON :=
  match d with
  | [] => None
  | (k, v) :: rest =>
    match dict_get key rest with
    | Some v' => Some v'
    | None => if str_eqb k key then Some v else None
    end
  end.

(** [{**d1, **d2}] *)
Definition dict_merge (d1 d2 : dict) : dict := d1 ++ d2.

(** Outcome of a step inside a [try] block. *)
Inductive exc (A : Type) : Type :=
| Ok (a : A)
| Raised.
Arguments Raised {A}.

#[export] Instance exc_ret : MRet exc := fun _ a => Ok a.
#[export] Instance exc_bind : MBind exc := fun _ _ f m =>
  match m with
  | Ok a => f a
  | Raised => Raised
  end.

(** [v.get(key, default)]: only a [dict] has the method; on any other
    value the attribute lookup raises [AttributeError]. *)
Definition py_get (v : JSON) (key : str) (default : JSON) : exc JSON :=
  match v with
  | JObj d =>
    match dict_get key d with
    | Some x => Ok x
    | None => Ok default
    end
  | _ => Raised
  end.

(** [value == s] for a string [s]: only an equal string compares equal. *)
Definition py_eq_str (v : JSON) (s : str) : bool :=
  match v with
  | JStr s' => str_eqb s' s
  | _ => false
  end.

(** [{**d, **v}]: unpacking a value that is not a mapping raises
    [TypeError]. *)
Definition py_merge (d : dict) (v : JSON) : exc dict :=
  match v with
  | JObj d' => Ok (dict_merge d d')
  | _ => Raised
  end.

(** [v[key]]: [KeyError] on a missing key, [TypeError] on a value that is
    not a dictionary. *)
Definition py_getitem (v : JSON) (key : str) : exc JSON :=
  match v with
  | JObj d =>
    match dict_get key d with
    | Some x => Ok x
    | None => Raised
    end
  | _ => Raised
  end.

(* ===================================================================== *)
(** ** Client configuration *)
(* ===================================================================== *)

Abbreviation Config := JSON.

Definition DEFAULT_TIMEOUTS : dict :=
  [ (lit "send_message_and_wait", JNum 180);
    (lit "get_messages", JNum 60);
    (lit "message_expiration", JNum 300) ].

Definition DEFAULT_CONFIG : Config :=
  JObj [ (lit "max_tokens", JNum 4096);
         (lit "max_iterations", JNum 10);
         (lit "timeouts", JObj DEFAULT_TIMEOUTS) ].

(** What [load_client_config] meets in one directory when it looks for
    [mcp_recipients.json]. *)
Inductive ConfigFile : Type :=
| absent                       (* [config_path.exists()] is false *)
| unreadable                   (* [open] or [json.load] raises *)
| parsed (config : JSON).      (* [json.load] returned [config] *)

(** The directories from [Path.cwd()] up to the root, the working
    directory first and the root last; [None] when [Path.cwd()] itself
    raises. *)
Abbreviation Disk := (option (list ConfigFile)).

(** The body of [with open(config_path) as f] for a file that was read:
    [Ok (Some c)] is [return c], [Ok None] falls out of the [if]. *)
Definition read_config (client_id : str) (config : JSON) : exc (option Config) :=
  my_id ← py_get config (lit "my_id") JNull;
  if py_eq_str my_id client_id then
    message_config ← py_get config (lit "message_config") (JObj []);
    max_tokens ← py_get message_config (lit "max_tokens") (JNum 4096);
    max_iterations ← py_get message_config (lit "max_iterations") (JNum 10);
    overrides ← py_get message_config (lit "timeouts") (JObj []);
    timeouts ← py_merge DEFAULT_TIMEOUTS overrides;
    Ok (Some (JObj [ (lit "max_tokens", max_tokens);
                     (lit "max_iterations", max_iterations);
                     (lit "timeouts", JObj timeouts) ]))
  else Ok None.

(** One iteration of the [while] loop, up to [current_dir = current_dir.parent]. *)
Definition visit (client_id : str) (f : ConfigFile) : exc (option Config) :=
  match f with
  | absent => Ok None
  | unreadable => Raised
  | parsed config => read_config client_id config
  end.

(** The [while current_dir.parent != current_dir] loop: the root, the last
    directory of the chain, is never searched. *)
Fixpoint walk (client_id : str) (dirs : list ConfigFile) : exc (option Config) :=
  match dirs with
  | [] => Ok None
  | [_root] => Ok None
  | f :: parents =>
    found ← visit client_id f;
    match found with
    | Some c => Ok (Some c)
    | None => walk client_id parents
    end
  end.

(** The [try] block of [load_client_config]. *)
Definition try_load (disk : Disk) (client_id : str) : exc (option Config) :=
  match disk with
  | None => Raised
  | Some dirs => walk client_id dirs
  end.

Definition load_client_config (disk : Disk) (client_id : str) : Config :=
  match try_load disk client_id with
  | Ok (Some c) => c
  | Ok None => DEFAULT_CONFIG
  | Raised => DEFAULT_CONFIG
  end.

(* ===================================================================== *)
(** ** Programs over external calls *)
(* ===================================================================== *)

(** A signature lists the calls a piece of code makes to its
    collaborators, with the type of what each call gives back. *)
Record Sig : Type := { call :> Type; reply : call -> Type }.

(** A coroutine body: it returns, lets an exception escape, or makes a call
    and goes on with the reply. *)
Inductive Prog (E : Sig) (A : Type) : Type :=
| Ret (a : A)
| Throw
| Do (c : E) (k : reply E c -> Prog E A).
Arguments Ret {E A} a.
Arguments Throw {E A}.
Arguments Do {E A} c k.

Fixpoint bind {E : Sig} {A B} (m : Prog E A) (f : A -> Prog E B) : Prog E B :=
  match m with
  | Ret a => f a
  | Throw => Throw
  | Do c k => Do c (fun r => bind (k r) f)
  end.

#[export] Instance Prog_ret {E : Sig} : MRet (Prog E) := fun _ a => Ret a.
#[export] Instance Prog_bind {E : Sig} : MBind (Prog E) := fun _ _ f m => bind m f.

Definition perform {E : Sig} (c : E) : Prog E (reply E c) := Do c Ret.

(** A step of a [try] block whose exception is not caught. *)
Definition escape {E : Sig} {A} (m : exc A) : Prog E A :=
  match m with
  | Ok a => Ret a
  | Raised => Throw
  end.

(* ===================================================================== *)
(** ** The messaging server *)
(* ===================================================================== *)

(** [datetime]: microseconds since the epoch. *)
Abbreviation datetime := Z.

(** [models.Message] as [send_message] builds it. *)
Record Message : Type := {
  from_client_id : str;
  content : str;
  timestamp : datetime
}.

Module Server.

(** The calls made by the methods of [MessagingServer]: its own
    [client_configs] dictionary, [load_client_config] (which reads the
    disk), the clock, [models.format_relative_time], the rendering of a
    value inside an f-string, and the [QueueBackend] interface. *)
Inductive Call : Type :=
| ClientConfigsGet (client_id : str)
| ClientConfigsSet (client_id : str) (config : Config)
| LoadClientConfig (client_id : str)
| DatetimeNow
| FormatRelativeTime (t : datetime)
| FormatValue (v : JSON)
| CleanupExpiredMessages
| SendMessage (recipient_id : str) (message : Message)
| NotifyNewMessage (recipient_id : str)
| WaitForNewMessage (client_id : str) (timeout : JSON)
| GetMessages (client_id : str) (pop : bool).

Definition Reply (c : Call) : Type :=
  match c with
  | ClientConfigsGet _ => option Config
  | ClientConfigsSet _ _ => unit
  | LoadClientConfig _ => Config
  | DatetimeNow => datetime
  | FormatRelativeTime _ => str
  | FormatValue _ => str
  | CleanupExpiredMessages => unit
  | SendMessage _ _ => unit
  | NotifyNewMessage _ => unit
  | WaitForNewMessage _ _ => bool
  | GetMessages _ _ => list Message
  end.

Definition sig : Sig := {| call := Call; reply := Reply |}.

End Server.

Abbreviation Coroutine := (Prog Server.sig).

(** [self.client_configs] *)
Module client_configs.
Definition get (client_id : str) : Coroutine (option Config) :=
  @perform Server.sig (Server.ClientConfigsGet client_id).
Definition set (client_id : str) (config : Config) : Coroutine unit :=
  @perform Server.sig (Server.ClientConfigsSet client_id config).
End client_configs.

(** Module-level functions and built-ins reached from the methods. *)
Module env.
Definition load_client_config (client_id : str) : Coroutine Config :=
  @perform Server.sig (Server.LoadClientConfig client_id).
Definition datetime_now : Coroutine datetime :=
  @perform Server.sig Server.DatetimeNow.
Definition format_relative_time (t : datetime) : Coroutine str :=
  @perform Server.sig (Server.FormatRelativeTime t).
Definition format_value (v : JSON) : Coroutine str :=
  @perform Server.sig (Server.FormatValue v).
End env.

(** [self.queue_backend] *)
Module queue_backend.
Definition cleanup_expired_messages : Coroutine unit :=
  @perform Server.sig Server.CleanupExpiredMessages.
Definition send_message (recipient_id : str) (message : Message) : Coroutine unit :=
  @perform Server.sig (Server.SendMessage recipient_id message).
Definition notify_new_message (recipient_id : str) : Coroutine unit :=
  @perform Server.sig (Server.NotifyNewMessage recipient_id).
Definition wait_for_new_message (client_id : str) (timeout : JSON) : Coroutine bool :=
  @perform Server.sig (Server.WaitForNewMessage client_id timeout).
Definition get_messages (client_id : str) (pop : bool) : Coroutine (list Message) :=
  @perform Server.sig (Server.GetMessages client_id pop).
End queue_backend.

Module MessagingServer.

Definition get_client_config (client_id : str) : Coroutine Config :=
  cached ← client_configs.get client_id;
  match cached with
  | Some config => mret config
  | None =>
    config ← env.load_client_config client_id;
    client_configs.set client_id config;;
    mret config
  end.

Definition NEWLINE : str := [10].

(** The six lines [_format_messages_as_markdown] adds for one message. *)
Definition message_block (msg : Message) (relative_time : str) : list str :=
  [ lit "**From:** `" ++ from_client_id msg ++ lit "`  ";
    lit "**Time:** " ++ relative_time ++ lit "  ";
    lit "**Message:** " ++ content msg;
    [];
    lit "---";
    [] ].

Fixpoint message_blocks (messages : list Message) (markdown_parts : list str)
  : Coroutine (list str) :=
  match messages with
  | [] => mret markdown_parts
  | msg :: rest =>
    relative_time ← env.format_relative_time (timestamp msg);
    message_blocks rest (markdown_parts ++ message_block msg relative_time)
  end.

(** The first line of [_format_messages_as_markdown]. *)
Definition header (client_id : str) (message_count : N) : str :=
  lit "## 📨 Messages for `" ++ client_id ++ lit "` (" ++ decimal message_count
  ++ lit " message" ++ (if negb (message_count =? 1) then lit "s" else [])
  ++ lit ")".

Definition _format_messages_as_markdown (client_id : str) (messages : list Message)
  : Coroutine str :=
  let message_count := N.of_nat (length messages) in
  markdown_parts ← message_blocks messages [header client_id message_count; []];
  mret (join NEWLINE markdown_parts).

Definition send_message (sender_id recipient_id content : str) : Coroutine str :=
  config ← get_client_config sender_id;
  queue_backend.cleanup_expired_messages;;
  if blank sender_id then
    mret (lit "❌ **Error**: Sender ID cannot be empty")
  else if blank recipient_id then
    mret (lit "❌ **Error**: Recipient ID cannot be empty")
  else if blank content then
    mret (lit "⚠️ **Warning**: Sending empty message")
  else
    now ← env.datetime_now;
    let message := {| from_client_id := sender_id;
                      content := content;
                      timestamp := now |} in
    queue_backend.send_message recipient_id message;;
    queue_backend.notify_new_message recipient_id;;
    mret (lit "✅ **Message sent successfully** to `" ++ recipient_id ++ lit "`").

(** [config["timeouts"][name]] *)
Definition timeout_of (config : Config) (name : str) : exc JSON :=
  timeouts ← py_getitem config (lit "timeouts");
  py_getitem timeouts name.

(** The [if message_arrived] block of [send_message_and_wait]. *)
Definition reply_after_wait (sender_id : str) (timeout : JSON)
    (message_arrived : bool) : Coroutine str :=
  if message_arrived then
    messages ← queue_backend.get_messages sender_id true;
    match messages with
    | _ :: _ => _format_messages_as_markdown sender_id messages
    | [] => mret (lit "📭 **No response received** (queue was empty)")
    end
  else
    shown ← env.format_value timeout;
    mret (lit "⏰ **Timeout**: No response received within " ++ shown
          ++ lit " seconds").

Definition send_message_and_wait (sender_id recipient_id content : str)
  : Coroutine str :=
  config ← get_client_config sender_id;
  timeout ← escape (timeout_of config (lit "send_message_and_wait"));
  send_result ← send_message sender_id recipient_id content;
  if startswith send_result (lit "❌") || startswith send_result (lit "⚠️") then
    mret send_result
  else
    message_arrived ← queue_backend.wait_for_new_message sender_id timeout;
    reply_after_wait sender_id timeout message_arrived.

(** The [if message_arrived] block of [get_messages]. *)
Definition messages_after_wait (client_id : str) (message_arrived : bool)
  : Coroutine str :=
  if message_arrived then
    messages ← queue_backend.get_messages client_id true;
    match messages with
    | _ :: _ => _format_messages_as_markdown client_id messages
    | [] => mret (lit "📭 **No messages** for you right now.")
    end
  else
    mret (lit "📭 **No messages** for you right now.").

Definition get_messages (client_id : str) : Coroutine str :=
  config ← get_client_config client_id;
  timeout ← escape (timeout_of config (lit "get_messages"));
  queue_backend.cleanup_expired_messages;;
  if blank client_id then
    mret (lit "❌ **Error**: Client ID cannot be empty")
  else
    messages ← queue_backend.get_messages client_id true;
    match messages with
    | [] =>
      message_arrived ← queue_backend.wait_for_new_message client_id timeout;
      messages_after_wait client_id message_arrived
    | _ :: _ => _format_messages_as_markdown client_id messages
    end.

End MessagingServer.

(** The functions registered with [@mcp.tool()]. *)
Module tools.

(** [expectation_text.get(expectation)] *)
Definition expectation_text (expectation : str) : option str :=
  if str_eqb expectation (lit "response_expected") then
    Some (lit "**📬 I expect a response via send_message_and_wait**")
  else if str_eqb expectation (lit "no_response") then
    Some (lit "**📭 I do not expect a response**")
  else if str_eqb expectation (lit "end_conversation") then
    Some (lit "**🔚 End of conversation**")
  else None.

(** [expectation_text['response_expected']] *)
Definition response_expected : str :=
  lit "**📬 I expect a response via send_message_and_wait**".

Definition formatted_message (message expectation : str) : str :=
  message ++ MessagingServer.NEWLINE ++ MessagingServer.NEWLINE ++ lit "---"
  ++ MessagingServer.NEWLINE
  ++ default response_expected (expectation_text expectation).

Definition send_message_and_wait (sender_id recipient_id message expectation : str)
  : Coroutine str :=
  if str_eqb expectation (lit "no_response") then
    result ← MessagingServer.send_message sender_id recipient_id
               (formatted_message message expectation);
    mret (lit "📭 **Message sent** (no response expected)"
          ++ MessagingServer.NEWLINE ++ MessagingServer.NEWLINE ++ result)
  else
    MessagingServer.send_message_and_wait sender_id recipient_id
      (formatted_message message expectation).

Definition get_messages (client_id : str) : Coroutine str :=
  MessagingServer.get_messages client_id.

End tools.

(* ===================================================================== *)
(** ** The in-memory queue backend *)
(* ===================================================================== *)

Module InMemoryQueueBackend.

Abbreviation Queues := (gmap str (list Message)).

(** Modelled from the spec: [queue_backends.InMemoryQueueBackend.send_message]
    is not part of the sources at hand. It appends to the recipient's
    mailbox and creates the mailbox if absent. *)
Definition send_message (recipient_id : str) (message : Message) (queues : Queues)
  : Queues :=
  <[recipient_id := default [] (queues !! recipient_id) ++ [message]]> queues.

(** Modelled from the spec: [InMemoryQueueBackend.get_messages] is not part
    of the sources at hand. With [pop] it detaches and returns the whole
    mailbox, leaving none behind; it returns the empty sequence if there
    was no mailbox. *)
Definition get_messages (client_id : str) (pop : bool) (queues : Queues)
  : list Message * Queues :=
  (default [] (queues !! client_id),
   if pop then delete client_id queues else queues).

(** A message is older than the expiration window. *)
Definition expired (window : Z) (now : datetime) (m : Message) : bool :=
  (window <? now - timestamp m)%Z.

(** Modelled from the spec: [InMemoryQueueBackend.cleanup_expired_messages]
    is not part of the sources at hand. It removes, from every mailbox, the
    messages older than the configured expiration window. *)
Definition cleanup_expired_messages (window : Z) (now : datetime) (queues : Queues)
  : Queues :=
  List.filter (fun m => negb (expired window now m)) <$> queues.

End InMemoryQueueBackend.

(* ===================================================================== *)
(** ** The process: server state, suspended callers, environment *)
(* ===================================================================== *)

(** A caller suspended in [wait_for_new_message]. *)
Record Waiter : Type := {
  waiting_on : str;
  wait_timeout : JSON;
  notified : bool;
  resume : bool -> Coroutine str
}.

Record Process : Type := {
  (** [MessagingServer.client_configs] *)
  self_client_configs : gmap str Config;
  (** [InMemoryQueueBackend.queues] *)
  backend_queues : gmap str (list Message);
  (** [InMemoryQueueBackend.message_expiration_seconds], in microseconds *)
  backend_expiration : Z;
  (** the callers suspended in [wait_for_new_message] *)
  suspended : list Waiter;
  (** environment: the clock, the disk, the two formatting functions *)
  clock : datetime;
  disk : Disk;
  relative_time : datetime -> datetime -> str;
  value_str : JSON -> str;
  (** every call made so far, oldest first *)
  journal : list Server.Call
}.

Definition set_client_configs (m : gmap str Config) (w : Process) : Process :=
  {| self_client_configs := m; backend_queues := backend_queues w;
     backend_expiration := backend_expiration w; suspended := suspended w;
     clock := clock w; disk := disk w; relative_time := relative_time w;
     value_str := value_str w; journal := journal w |}.

Definition set_queues (q : gmap str (list Message)) (w : Process) : Process :=
  {| self_client_configs := self_client_configs w; backend_queues := q;
     backend_expiration := backend_expiration w; suspended := suspended w;
     clock := clock w; disk := disk w; relative_time := relative_time w;
     value_str := value_str w; journal := journal w |}.

Definition set_suspended (l : list Waiter) (w : Process) : Process :=
  {| self_client_configs := self_client_configs w; backend_queues := backend_queues w;
     backend_expiration := backend_expiration w; suspended := l;
     clock := clock w; disk := disk w; relative_time := relative_time w;
     value_str := value_str w; journal := journal w |}.

Definition set_clock (t : datetime) (w : Process) : Process :=
  {| self_client_configs := self_client_configs w; backend_queues := backend_queues w;
     backend_expiration := backend_expiration w; suspended := suspended w;
     clock := t; disk := disk w; relative_time := relative_time w;
     value_str := value_str w; journal := journal w |}.

Definition set_disk (d : Disk) (w : Process) : Process :=
  {| self_client_configs := self_client_configs w; backend_queues := backend_queues w;
     backend_expiration := backend_expiration w; suspended := suspended w;
     clock := clock w; disk := d; relative_time := relative_time w;
     value_str := value_str w; journal := journal w |}.

Definition log_call (c : Server.Call) (w : Process) : Process :=
  {| self_client_configs := self_client_configs w; backend_queues := backend_queues w;
     backend_expiration := backend_expiration w; suspended := suspended w;
     clock := clock w; disk := disk w; relative_time := relative_time w;
     value_str := value_str w; journal := journal w ++ [c] |}.

(** Modelled from the spec: [InMemoryQueueBackend.notify_new_message] is not
    part of the sources at hand. It wakes every caller currently waiting for
    the client (broadcast) and leaves nothing behind when nobody waits. *)
Definition notify (client_id : str) (wt : Waiter) : Waiter :=
  if str_eqb (waiting_on wt) client_id
  then {| waiting_on := waiting_on wt; wait_timeout := wait_timeout wt;
          notified := true; resume := resume wt |}
  else wt.

(** What a call does: it is answered at once, or it parks the caller
    ([wait_for_new_message], the one suspension point of the methods). *)
Inductive Reaction (c : Server.Call) : Type :=
| Answered (r : Server.Reply c) (w : Process)
| Parked (client_id : str) (timeout : JSON) (wake : bool -> Server.Reply c).

Definition react (c : Server.Call) (w : Process) : Reaction c :=
  match c as c0 return Reaction c0 with
  | Server.ClientConfigsGet client_id =>
    Answered (Server.ClientConfigsGet client_id) (self_client_configs w !! client_id) w
  | Server.ClientConfigsSet client_id config =>
    Answered (Server.ClientConfigsSet client_id config) tt
      (set_client_configs (<[client_id := config]> (self_client_configs w)) w)
  | Server.LoadClientConfig client_id =>
    Answered (Server.LoadClientConfig client_id)
      (load_client_config (disk w) client_id) w
  | Server.DatetimeNow => Answered Server.DatetimeNow (clock w) w
  | Server.FormatRelativeTime t =>
    Answered (Server.FormatRelativeTime t) (relative_time w (clock w) t) w
  | Server.FormatValue v => Answered (Server.FormatValue v) (value_str w v) w
  | Server.CleanupExpiredMessages =>
    Answered Server.CleanupExpiredMessages tt
      (set_queues (InMemoryQueueBackend.cleanup_expired_messages
                     (backend_expiration w) (clock w) (backend_queues w)) w)
  | Server.SendMessage recipient_id message =>
    Answered (Server.SendMessage recipient_id message) tt
      (set_queues (InMemoryQueueBackend.send_message recipient_id message
                     (backend_queues w)) w)
  | Server.NotifyNewMessage recipient_id =>
    Answered (Server.NotifyNewMessage recipient_id) tt
      (set_suspended (notify recipient_id <$> suspended w) w)
  | Server.WaitForNewMessage client_id timeout =>
    Parked (Server.WaitForNewMessage client_id timeout) client_id timeout (fun b => b)
  | Server.GetMessages client_id pop =>
    let '(messages, q) :=
      InMemoryQueueBackend.get_messages client_id pop (backend_queues w) in
    Answered (Server.GetMessages client_id pop) messages (set_queues q w)
  end.

(** How a coroutine leaves the running state: it returned, an exception
    escaped, or it is suspended in [wait_for_new_message] and goes on with
    the result of the wait. *)
Inductive Outcome (A : Type) : Type :=
| Returned (result : A)
| Crashed
| Suspended (client_id : str) (timeout : JSON) (k : bool -> Coroutine A).
Arguments Crashed {A}.

(** Runs a coroutine up to its next suspension: the calls are answered one
    after the other, without interleaving, as the event loop does between
    two suspension points. *)
Fixpoint run {A} (p : Coroutine A) (w : Process) : Outcome A * Process :=
  match p with
  | Ret result => (Returned result, w)
  | Throw => (Crashed, w)
  | Do c k =>
    let w1 := log_call c w in
    match react c w1 with
    | Answered _ r w2 => run (k r) w2
    | Parked _ client_id timeout wake =>
      (Suspended client_id timeout (fun b => k (wake b)), w1)
    end
  end.

(** A suspended operation joins the waiters; the others leave the process. *)
Definition settle (r : Outcome str * Process) : Outcome str * Process :=
  match r with
  | (Suspended client_id timeout k, w) =>
    (Suspended client_id timeout k,
     set_suspended (suspended w ++
                    [{| waiting_on := client_id; wait_timeout := timeout;
                        notified := false; resume := k |}]) w)
  | _ => r
  end.

(** The operations offered to clients. *)
Inductive Operation : Type :=
| op_send_message (sender_id recipient_id content : str)
| op_send_message_and_wait (sender_id recipient_id content : str)
| op_get_messages (client_id : str).

(** The method behind an operation. *)
Definition body (op : Operation) : Coroutine str :=
  match op with
  | op_send_message s r c => MessagingServer.send_message s r c
  | op_send_message_and_wait s r c => MessagingServer.send_message_and_wait s r c
  | op_get_messages c => MessagingServer.get_messages c
  end.

(** What can happen next in the process.

    Modelled from the spec: [InMemoryQueueBackend.wait_for_new_message] is
    not part of the sources at hand. The caller is suspended until
    [notify_new_message] is called for its client, and its wait then gives
    [True], or until its timeout elapses, and its wait gives [False].
    Durations are not measured: the timeout of a waiter that was not
    notified may elapse at any moment. The clock is [datetime.now()], the
    local wall clock: between two steps it may stand still, advance, or be
    set back. *)
Inductive Action : Type :=
| Invoke (op : Operation)       (* a client starts an operation *)
| Wake (i : nat)                (* a notified waiter resumes: its wait gave True *)
| TimeOut (i : nat)             (* a waiter's timeout elapses: its wait gave False *)
| Tick (dt : Z)                 (* the clock moves, back if [dt] is negative *)
| WriteDisk (d : Disk).         (* the configuration files change *)

(** One action: what the client that is served gets back, if any, and the
    next state. *)
Definition step (a : Action) (w : Process) : option (Outcome str) * Process :=
  match a with
  | Invoke op => let '(o, w') := settle (run (body op) w) in (Some o, w')
  | Wake i =>
    match suspended w !! i with
    | Some wt =>
      if notified wt
      then let '(o, w') :=
             settle (run (resume wt true) (set_suspended (delete i (suspended w)) w))
           in (Some o, w')
      else (None, w)
    | None => (None, w)
    end
  | TimeOut i =>
    match suspended w !! i with
    | Some wt =>
      if notified wt
      then (None, w)
      else let '(o, w') :=
             settle (run (resume wt false) (set_suspended (delete i (suspended w)) w))
           in (Some o, w')
    | None => (None, w)
    end
  | Tick dt => (None, set_clock (clock w + dt)%Z w)
  | WriteDisk d => (None, set_disk d w)
  end.

(** A run of the process. *)
Fixpoint steps (acts : list Action) (w : Process) : Process :=
  match acts with
  | [] => w
  | a :: rest => steps rest (snd (step a w))
  end.

(** The process as [MessagingServer(queue_backend=InMemoryQueueBackend(
    message_expiration_seconds=300.0))] creates it. *)
Definition start (now : datetime) (d : Disk)
    (rel : datetime -> datetime -> str) (fmt : JSON -> str) : Process :=
  {| self_client_configs := ∅; backend_queues := ∅;
     backend_expiration := 300000000; suspended := [];
     clock := now; disk := d; relative_time := rel; value_str := fmt;
     journal := [] |}.

(* ===================================================================== *)
(** ** The callbacks of the configuration files *)
(* ===================================================================== *)

(** [key in s] for two strings: [key] occurs in [s]. *)
Fixpoint contains_str (s key : str) : bool :=
  startswith s key
  || match s with
     | [] => false
     | _ :: rest => contains_str rest key
     end.

(** [key in v]: a key of a dictionary, an element of a list, a substring of
    a string; [TypeError] on a number, a boolean or [None]. *)
Definition py_contains (v : JSON) (key : str) : exc bool :=
  match v with
  | JObj d => Ok (bool_decide (is_Some (dict_get key d)))
  | JArr items => Ok (existsb (fun x => py_eq_str x key) items)
  | JStr s => Ok (contains_str s key)
  | _ => Raised
  end.

(** [hash(v)]: a list or a dictionary raises [TypeError]. *)
Definition hashable (v : JSON) : bool :=
  match v with
  | JArr _ | JObj _ => false
  | _ => true
  end.

(** The number a value compares as: [True == 1] and [False == 0]. *)
Definition as_number (v : JSON) : option Q :=
  match v with
  | JBool b => Some (if b then 1%Q else 0%Q)
  | JNum q => Some q
  | _ => None
  end.

(** [a == b] for two dictionary keys. *)
Definition key_eqb (a b : JSON) : bool :=
  match a, b with
  | JNull, JNull => true
  | JStr s, JStr t => str_eqb s t
  | _, _ =>
    match as_number a, as_number b with
    | Some p, Some q => Qeq_bool p q
    | _, _ => false
    end
  end.

(** [list(dict.fromkeys(items))] continued from the keys inserted so far:
    the keys in the order of their first occurrence. *)
Fixpoint fromkeys (items keys : list JSON) : exc (list JSON) :=
  match items with
  | [] => Ok keys
  | x :: rest =>
    if hashable x then
      fromkeys rest (if existsb (key_eqb x) keys then keys else keys ++ [x])
    else Raised
  end.

(** The dictionary [callbacks] of [load_callbacks_from_config]. *)
Record CallbackLists : Type := {
  connect : list JSON;
  disconnect : list JSON
}.

(** The block [if event in file_callbacks: ...] for one event. *)
Definition add_callbacks (file_callbacks : JSON) (event : str) (urls : list JSON)
  : exc (list JSON) :=
  present ← py_contains file_callbacks event;
  if (present : bool) then
    value ← py_getitem file_callbacks event;
    match value with
    | JArr items => Ok (urls ++ items)       (* extend *)
    | _ => Ok (urls ++ [value])              (* append *)
    end
  else Ok urls.

(** The inner [try] of the loop for one file. The lists are updated in
    place: what was added before an exception stays. A file that is gone
    when it is opened raises in [open], as one that cannot be read. *)
Definition load_file (f : ConfigFile) (callbacks : CallbackLists) : CallbackLists :=
  match f with
  | absent | unreadable => callbacks
  | parsed config =>
    match py_get config (lit "callbacks") (JObj []) with
    | Raised => callbacks
    | Ok file_callbacks =>
      match add_callbacks file_callbacks (lit "connect") (connect callbacks) with
      | Raised => callbacks
      | Ok c =>
        match add_callbacks file_callbacks (lit "disconnect") (disconnect callbacks) with
        | Raised => {| connect := c; disconnect := disconnect callbacks |}
        | Ok d => {| connect := c; disconnect := d |}
        end
      end
    end
  end.

(** The outer [try]: the files matched by [*_recipients.json] in the working
    directory, in the order of the scan; [None] when the scan raises before
    the first file. *)
Definition scan_files (files : option (list ConfigFile)) : CallbackLists :=
  match files with
  | None => {| connect := []; disconnect := [] |}
  | Some fs =>
    fold_left (fun callbacks f => load_file f callbacks) fs
      {| connect := []; disconnect := [] |}
  end.

(** The removal of duplicates is outside of both [try] blocks. *)
Definition load_callbacks_from_config (files : option (list ConfigFile))
  : exc CallbackLists :=
  let callbacks := scan_files files in
  c ← fromkeys (connect callbacks) [];
  d ← fromkeys (disconnect callbacks) [];
  Ok {| connect := c; disconnect := d |}.

(* ===================================================================== *)
(** ** The callback dispatcher *)
(* ===================================================================== *)

(** What [client.post] followed by [response.raise_for_status()] meets. *)
Inductive PostResult : Type :=
| Response (status_code : N)          (* a response came back *)
| TimeoutException                    (* [httpx.TimeoutException] *)
| OtherException (message : str).     (* any other [Exception] *)

Inductive Level : Type := DEBUG | INFO | WARNING | ERROR.

(** [response.raise_for_status()] raises [HTTPStatusError] unless the
    status is a 2xx. *)
Definition is_success (status_code : N) : bool :=
  (200 <=? status_code) && (status_code <=? 299).

(** [l[i]], raising [IndexError] out of range. *)
Definition index {A} (l : list A) (i : nat) : exc A :=
  match nth_error l i with
  | Some x => Ok x
  | None => Raised
  end.

(** A log line written as an f-string: its literal text and the values
    formatted into it, in order. *)
Inductive Part : Type :=
| Text (s : str)
| Formatted (v : JSON).

Module Delivery.

(** The calls of [fire_single_callback]. The URL is whatever value the
    configuration gave: [httpx] decides what a request to it meets. *)
Inductive Call : Type :=
| Post (url : JSON) (payload : JSON) (timeout : Q)
| Sleep (delay : Q)
| Log (level : Level) (msg : list Part).

Definition Reply (c : Call) : Type :=
  match c with
  | Post _ _ _ => PostResult
  | Sleep _ => unit
  | Log _ _ => unit
  end.

Definition sig : Sig := {| call := Call; reply := Reply |}.

Definition post (url : JSON) (payload : JSON) (timeout : Q) : Prog sig PostResult :=
  @perform sig (Post url payload timeout).
Definition sleep (delay : Q) : Prog sig unit := @perform sig (Sleep delay).
Definition log (level : Level) (msg : list Part) : Prog sig unit :=
  @perform sig (Log level msg).

End Delivery.

Abbreviation Task := nat.

Module Emit.

(** The calls of [fire_callbacks]. [CreateTask coro] is
    [asyncio.create_task(coro)] and [Gather tasks flag] is
    [await asyncio.gather( *tasks, return_exceptions=flag)]. *)
Inductive Call : Type :=
| LoadCallbacksFromConfig
| Log (level : Level) (msg : str)
| CreateTask (coro : Prog Delivery.sig unit)
| Gather (tasks : list Task) (return_exceptions : bool).

(** [load_callbacks_from_config()] returns its dictionary or raises. *)
Definition Reply (c : Call) : Type :=
  match c with
  | LoadCallbacksFromConfig => exc CallbackLists
  | Log _ _ => unit
  | CreateTask _ => Task
  | Gather _ _ => exc (list (exc unit))
  end.

Definition sig : Sig := {| call := Call; reply := Reply |}.

Definition load_callbacks_from_config : Prog sig CallbackLists :=
  outcome ← @perform sig LoadCallbacksFromConfig;
  escape outcome.
Definition log (level : Level) (msg : str) : Prog sig unit :=
  @perform sig (Log level msg).
Definition create_task (coro : Prog Delivery.sig unit) : Prog sig Task :=
  @perform sig (CreateTask coro).
Definition gather (tasks : list Task) (return_exceptions : bool)
  : Prog sig (exc (list (exc unit))) :=
  @perform sig (Gather tasks return_exceptions).

(** [callbacks.get(event_type, [])] *)
Definition get (callbacks : CallbackLists) (event_type : str) : list JSON :=
  if str_eqb event_type (lit "connect") then connect callbacks
  else if str_eqb event_type (lit "disconnect") then disconnect callbacks
  else [].

End Emit.

Definition max_retries : nat := 3.
Definition timeout_seconds : Q := 5.
Definition retry_delays : list Q := [1%Q; 2%Q; 4%Q].

Definition attempt_no (attempt : nat) : str := decimal (N.of_nat (attempt + 1)).
Definition of_max : str := lit "/" ++ decimal (N.of_nat max_retries) ++ lit ")".

(** The end of one pass through the loop body after a failed attempt:
    [if attempt < max_retries - 1: await asyncio.sleep(retry_delays[attempt])]. *)
Definition wait_before_retry (attempt : nat) : Prog Delivery.sig unit :=
  if (attempt <? max_retries - 1)%nat then
    delay ← escape (index retry_delays attempt);
    Delivery.sleep delay
  else mret tt.

(** The [for attempt in range(max_retries)] loop and what follows it. *)
Fixpoint retry_loop (url : JSON) (payload : JSON) (event_type : str)
    (attempts : list nat) : Prog Delivery.sig unit :=
  match attempts with
  | [] =>
    Delivery.log ERROR
      [ Text (lit "💥 Callback failed after " ++ decimal (N.of_nat max_retries)
              ++ lit " attempts: " ++ event_type ++ lit " -> ");
        Formatted url ];;
    mret tt
  | attempt :: rest =>
    r ← Delivery.post url payload timeout_seconds;
    match r with
    | Response status_code =>
      if is_success status_code then
        Delivery.log INFO
          [ Text (lit "✅ Callback success: " ++ event_type ++ lit " -> ");
            Formatted url;
            Text (lit " (attempt " ++ attempt_no attempt ++ lit ")") ];;
        mret tt
      else
        Delivery.log WARNING
          [ Text (lit "🔴 Callback HTTP error: " ++ event_type ++ lit " -> ");
            Formatted url;
            Text (lit " - Status " ++ decimal status_code
                  ++ lit " (attempt " ++ attempt_no attempt ++ of_max) ];;
        wait_before_retry attempt;;
        retry_loop url payload event_type rest
    | TimeoutException =>
      Delivery.log WARNING
        [ Text (lit "⏰ Callback timeout: " ++ event_type ++ lit " -> ");
          Formatted url;
          Text (lit " (attempt " ++ attempt_no attempt ++ of_max) ];;
      wait_before_retry attempt;;
      retry_loop url payload event_type rest
    | OtherException message =>
      Delivery.log WARNING
        [ Text (lit "❌ Callback error: " ++ event_type ++ lit " -> ");
          Formatted url;
          Text (lit " - " ++ message
                ++ lit " (attempt " ++ attempt_no attempt ++ of_max) ];;
      wait_before_retry attempt;;
      retry_loop url payload event_type rest
    end
  end.

Definition fire_single_callback (url : JSON) (payload : JSON) (event_type : str)
  : Prog Delivery.sig unit :=
  retry_loop url payload event_type (seq 0 max_retries).

(** The [for url in urls] loop of [fire_callbacks]. *)
Fixpoint spawn_all (urls : list JSON) (payload : JSON) (event_type : str)
    (tasks : list Task) : Prog Emit.sig (list Task) :=
  match urls with
  | [] => mret tasks
  | url :: rest =>
    task ← Emit.create_task (fire_single_callback url payload event_type);
    spawn_all rest payload event_type (tasks ++ [task])
  end.

Definition fire_callbacks (event_type : str) (payload : JSON) : Prog Emit.sig unit :=
  callbacks ← Emit.load_callbacks_from_config;
  let urls := Emit.get callbacks event_type in
  match urls with
  | [] =>
    Emit.log DEBUG (lit "No callbacks configured for event: " ++ event_type);;
    mret tt
  | _ :: _ =>
    Emit.log INFO
      (lit "Firing " ++ decimal (N.of_nat (length urls))
       ++ lit " callback(s) for event: " ++ event_type);;
    tasks ← spawn_all urls payload event_type [];
    match tasks with
    | [] => mret tt
    | _ :: _ =>
      gathered ← Emit.gather tasks true;
      _ ← escape gathered;
      mret tt
    end
  end.

(** *** Running the dispatcher *)

(** What the request number [n] (counted from 0) of one delivery to [url]
    meets: the answer of the endpoint, or the exception [httpx] raises. *)
Abbreviation Net := (JSON -> nat -> PostResult).

Definition deliver_answer (net : Net) (n : nat) (c : Delivery.Call)
  : Delivery.Reply c * nat :=
  match c as c0 return Delivery.Reply c0 * nat with
  | Delivery.Post url _ _ => (net url n, S n)
  | Delivery.Sleep _ => (tt, n)
  | Delivery.Log _ _ => (tt, n)
  end.

(** Runs one delivery to its end: how it ends and the calls it made. *)
Fixpoint deliver {A} (net : Net) (n : nat) (p : Prog Delivery.sig A)
  : exc A * list Delivery.Call :=
  match p with
  | Ret a => (Ok a, [])
  | Throw => (Raised, [])
  | Do c k =>
    let '(r, n') := deliver_answer net n c in
    let '(o, calls) := deliver net n' (k r) in
    (o, c :: calls)
  end.

(** The event loop while [fire_callbacks] runs. *)
Record Loop : Type := {
  (** environment: the files the scan of [load_callbacks_from_config]
      meets, the endpoints *)
  configured : option (list ConfigFile);
  endpoints : Net;
  (** the tasks created so far, by task number *)
  created : list (Prog Delivery.sig unit);
  (** the deliveries that ran to their end, with the calls each made *)
  completed : list (Task * list Delivery.Call);
  (** the calls of [fire_callbacks] itself, oldest first *)
  emitted : list Emit.Call
}.

(** [await asyncio.gather( *tasks)]: the caller is suspended until every task
    is done; each task runs its coroutine to the end. *)
Fixpoint gather_all (net : Net) (created : list (Prog Delivery.sig unit))
    (tasks : list Task) : list (exc unit) * list (Task * list Delivery.Call) :=
  match tasks with
  | [] => ([], [])
  | t :: rest =>
    let '(o, calls) :=
      match created !! t with
      | Some coro => deliver net 0 coro
      | None => (Raised, [])
      end in
    let '(os, done) := gather_all net created rest in
    (o :: os, (t, calls) :: done)
  end.

Definition first_exception (results : list (exc unit)) : bool :=
  existsb (fun r => match r with Raised => true | Ok _ => false end) results.

Definition emit_answer (c : Emit.Call) (l : Loop) : Emit.Reply c * Loop :=
  match c as c0 return Emit.Reply c0 * Loop with
  | Emit.LoadCallbacksFromConfig => (load_callbacks_from_config (configured l), l)
  | Emit.Log _ _ => (tt, l)
  | Emit.CreateTask coro =>
    (length (created l),
     {| configured := configured l; endpoints := endpoints l;
        created := created l ++ [coro]; completed := completed l;
        emitted := emitted l |})
  | Emit.Gather tasks return_exceptions =>
    let '(results, done) := gather_all (endpoints l) (created l) tasks in
    (if negb return_exceptions && first_exception results
     then Raised else Ok results,
     {| configured := configured l; endpoints := endpoints l;
        created := created l; completed := completed l ++ done;
        emitted := emitted l |})
  end.

Definition emit_log (c : Emit.Call) (l : Loop) : Loop :=
  {| configured := configured l; endpoints := endpoints l;
     created := created l; completed := completed l;
     emitted := emitted l ++ [c] |}.

(** Runs [fire_callbacks] until it returns to its caller. *)
Fixpoint emit {A} (p : Prog Emit.sig A) (l : Loop) : exc A * Loop :=
  match p with
  | Ret a => (Ok a, l)
  | Throw => (Raised, l)
  | Do c k =>
    let '(r, l') := emit_answer c (emit_log c l) in
    emit (k r) l'
  end.

Definition idle (files : option (list ConfigFile)) (net : Net) : Loop :=
  {| configured := files; endpoints := net; created := []; completed := [];
     emitted := [] |}.

(* ===================================================================== *)
(** ** Vocabulary of the statements *)
(* ===================================================================== *)

(** *** Configuration lookup *)

(** A directory holds a configuration for the client: a parsed object whose
    [my_id] is the client's id. *)
Definition matches (client_id : str) (f : ConfigFile) : Prop :=
  exists d, f = parsed (JObj d) /\ dict_get (lit "my_id") d = Some (JStr client_id).

(** No matching configuration source is found: the working directory can be
    read and no directory below the root holds a configuration for the
    client. *)
Definition no_source (disk : Disk) (client_id : str) : Prop :=
  exists dirs, disk = Some dirs /\ Forall (fun f => ~ matches client_id f) (removelast dirs).

(** The lookup fails: an exception is raised inside the [try] block. *)
Definition read_fails (disk : Disk) (client_id : str) : Prop :=
  try_load disk client_id = Raised.

(** *** States of the process *)

(** The state after a call has been logged and answered. *)
Definition answered (c : Server.Call) (w : Process) : Process :=
  match react c (log_call c w) with
  | Answered _ _ w' => w'
  | Parked _ _ _ _ => log_call c w
  end.

(** The state after a sequence of calls. *)
Fixpoint answered_all (cs : list Server.Call) (w : Process) : Process :=
  match cs with
  | [] => w
  | c :: rest => answered_all rest (answered c w)
  end.

(** The configuration [get_client_config] resolves to in a state. *)
Definition resolved (w : Process) (client_id : str) : Config :=
  match self_client_configs w !! client_id with
  | Some config => config
  | None => load_client_config (disk w) client_id
  end.

(** The calls [get_client_config] makes in a state. *)
Definition config_calls (w : Process) (client_id : str) : list Server.Call :=
  match self_client_configs w !! client_id with
  | Some _ => [Server.ClientConfigsGet client_id]
  | None =>
    [Server.ClientConfigsGet client_id; Server.LoadClientConfig client_id;
     Server.ClientConfigsSet client_id (load_client_config (disk w) client_id)]
  end.

(** The state [get_client_config] leaves. *)
Definition looked_up (w : Process) (client_id : str) : Process :=
  match self_client_configs w !! client_id with
  | Some _ => answered (Server.ClientConfigsGet client_id) w
  | None =>
    answered (Server.ClientConfigsSet client_id (load_client_config (disk w) client_id))
      (answered (Server.LoadClientConfig client_id)
         (answered (Server.ClientConfigsGet client_id) w))
  end.

(** The state after the configuration lookup and the sweep. *)
Definition swept (w : Process) (sender_id : str) : Process :=
  answered Server.CleanupExpiredMessages (looked_up w sender_id).

(** The mailboxes as the sweep leaves them. *)
Definition kept (w : Process) : gmap str (list Message) :=
  InMemoryQueueBackend.cleanup_expired_messages
    (backend_expiration w) (clock w) (backend_queues w).

(** The message a send builds. *)
Definition letter (w : Process) (sender_id content : str) : Message :=
  {| from_client_id := sender_id; content := content; timestamp := clock w |}.

(** The state an accepted send leaves: sweep, clock, enqueue, notify. *)
Definition delivered (w : Process) (sender_id recipient_id content : str) : Process :=
  answered (Server.NotifyNewMessage recipient_id)
    (answered (Server.SendMessage recipient_id (letter w sender_id content))
       (answered Server.DatetimeNow (swept w sender_id))).

(** What a popAll for the client returns in a state. *)
Definition mailbox (w : Process) (client_id : str) : list Message :=
  default [] (backend_queues w !! client_id).

(** The timeout configured for a client under a name. *)
Definition timeout_for (w : Process) (client_id name : str) : JSON :=
  match MessagingServer.timeout_of (resolved w client_id) name with
  | Ok t => t
  | Raised => JNull
  end.

(** *** Results of the operations *)

(** The result of [send_message]. *)
Definition send_result (sender_id recipient_id content : str) : str :=
  if blank sender_id then lit "❌ **Error**: Sender ID cannot be empty"
  else if blank recipient_id then lit "❌ **Error**: Recipient ID cannot be empty"
  else if blank content then lit "⚠️ **Warning**: Sending empty message"
  else lit "✅ **Message sent successfully** to `" ++ recipient_id ++ lit "`".

(** Sender, recipient and content are non-empty after trimming. *)
Definition accepted (sender_id recipient_id content : str) : bool :=
  negb (blank sender_id) && negb (blank recipient_id) && negb (blank content).

(** The result texts of the waiting operations. *)
Definition no_response : str := lit "📭 **No response received** (queue was empty)".
Definition no_messages : str := lit "📭 **No messages** for you right now.".
Definition timed_out (shown : str) : str :=
  lit "⏰ **Timeout**: No response received within " ++ shown ++ lit " seconds".

(** The validation error of [get_messages]. *)
Definition empty_client_id : str := lit "❌ **Error**: Client ID cannot be empty".

(** [message_blocks] as a function of the rendering of times. *)
Fixpoint blocks (rel : datetime -> str) (messages : list Message)
    (markdown_parts : list str) : list str :=
  match messages with
  | [] => markdown_parts
  | msg :: rest =>
    blocks rel rest
      (markdown_parts ++ MessagingServer.message_block msg (rel (timestamp msg)))
  end.

(** The text [_format_messages_as_markdown] returns. *)
Definition markdown (rel : datetime -> str) (client_id : str)
    (messages : list Message) : str :=
  join MessagingServer.NEWLINE
    (blocks rel messages
       [MessagingServer.header client_id (N.of_nat (length messages)); []]).

(** The calls [_format_messages_as_markdown] makes. *)
Definition time_calls (messages : list Message) : list Server.Call :=
  List.map (fun m => Server.FormatRelativeTime (timestamp m)) messages.

(** What a resumed caller does with its mailbox after a notification: it
    pops once and returns the messages, or the given text if there is none. *)
Definition collect (empty : str) (client_id : str) (w : Process)
  : Outcome str * Process :=
  let w1 := answered (Server.GetMessages client_id true) w in
  match mailbox w client_id with
  | [] => (Returned empty, w1)
  | (_ :: _) as messages =>
    (Returned (markdown (relative_time w (clock w)) client_id messages),
     answered_all (time_calls messages) w1)
  end.

(** [get_messages] up to its first suspension. *)
Definition received (w : Process) (client_id : str) : Outcome str * Process :=
  let w1 := swept w client_id in
  let t := timeout_for w client_id (lit "get_messages") in
  if blank client_id then (Returned empty_client_id, w1)
  else
    match mailbox w1 client_id with
    | [] =>
      (Suspended client_id t (MessagingServer.messages_after_wait client_id),
       answered (Server.WaitForNewMessage client_id t)
         (answered (Server.GetMessages client_id true) w1))
    | _ :: _ => collect no_messages client_id w1
    end.

(** [send_message_and_wait] up to its first suspension. *)
Definition sent_and_waiting (w : Process) (s r c : str) : Outcome str * Process :=
  let t := timeout_for w s (lit "send_message_and_wait") in
  if accepted s r c
  then (Suspended s t (MessagingServer.reply_after_wait s t),
        answered (Server.WaitForNewMessage s t) (delivered (looked_up w s) s r c))
  else (Returned (send_result s r c), swept (looked_up w s) s).

(** *** Invariants of the process *)

(** A configuration has the two timeouts the methods read. *)
Definition well_formed (config : Config) : Prop :=
  exists t1 t2,
    MessagingServer.timeout_of config (lit "send_message_and_wait") = Ok t1
    /\ MessagingServer.timeout_of config (lit "get_messages") = Ok t2.

(** Every cached configuration is well formed. *)
Definition well_configured (w : Process) : Prop :=
  forall client_id config,
    self_client_configs w !! client_id = Some config -> well_formed config.

(** The calls that leave [client_configs] alone. *)
Definition backend_call (c : Server.Call) : bool :=
  match c with
  | Server.ClientConfigsGet _ | Server.ClientConfigsSet _ _
  | Server.LoadClientConfig _ => false
  | _ => true
  end.

(** The discipline of the methods: they touch the cache through
    [get_client_config] only. *)
Inductive disciplined : forall A, Coroutine A -> Prop :=
| disciplined_ret A (a : A) : disciplined (Ret a)
| disciplined_throw A : disciplined (@Throw Server.sig A)
| disciplined_call A (c : Server.Call) (k : Server.Reply c -> Coroutine A) :
    backend_call c = true ->
    (forall r, disciplined (k r)) ->
    disciplined (@Do Server.sig A c k)
| disciplined_lookup client_id :
    disciplined (MessagingServer.get_client_config client_id)
| disciplined_bind A B (m : Coroutine A) (k : A -> Coroutine B) :
    disciplined m ->
    (forall a, disciplined (k a)) ->
    disciplined (m ≫= k).

(** The call is [load_client_config] for the client. *)
Definition is_load (client_id : str) (c : Server.Call) : bool :=
  match c with
  | Server.LoadClientConfig c' => str_eqb c' client_id
  | _ => false
  end.

(** How often [load_client_config] was called for a client. *)
Definition loads (client_id : str) (j : list Server.Call) : nat :=
  length (List.filter (is_load client_id) j).

(** A client's configuration was loaded once if it is cached and never
    otherwise. *)
Definition cached_once (w : Process) : Prop :=
  forall client_id,
    loads client_id (journal w)
    = match self_client_configs w !! client_id with
      | Some _ => 1%nat
      | None => 0%nat
      end.

(** A suspended caller goes on with disciplined code. *)
Definition waiter_ok (wt : Waiter) : Prop := forall b, disciplined (resume wt b).

(** The invariant of the process. *)
Definition sound (w : Process) : Prop :=
  well_configured w /\ cached_once w /\ Forall waiter_ok (suspended w).

(** A suspended coroutine goes on with disciplined code. *)
Definition continues {A} (o : Outcome A) : Prop :=
  match o with
  | Suspended _ _ k => forall b, disciplined (k b)
  | _ => True
  end.

(** The states the process can be in. *)
Definition reachable (w : Process) : Prop :=
  exists now d rel fmt acts, w = steps acts (start now d rel fmt).

(** Entries of the cache are never dropped nor replaced. *)
Definition keeps (w w' : Process) : Prop :=
  forall client_id config,
    self_client_configs w !! client_id = Some config ->
    self_client_configs w' !! client_id = Some config.

(** *** Deliveries *)

(** An attempt failed: timeout, non-2xx status or any other exception. *)
Definition failed (r : PostResult) : bool :=
  match r with
  | Response status_code => negb (is_success status_code)
  | TimeoutException => true
  | OtherException _ => true
  end.

(** The call is a log line. *)
Definition is_log (c : Delivery.Call) : bool :=
  match c with Delivery.Log _ _ => true | _ => false end.

(** The requests and pauses of a delivery, in order. *)
Definition wire (calls : list Delivery.Call) : list Delivery.Call :=
  List.filter (fun c => negb (is_log c)) calls.

(** The levels a delivery logged at, in order. *)
Fixpoint levels (calls : list Delivery.Call) : list Level :=
  match calls with
  | [] => []
  | Delivery.Log level _ :: rest => level :: levels rest
  | _ :: rest => levels rest
  end.

(** The coroutines [fire_callbacks] wraps into tasks. *)
Definition coroutines (urls : list JSON) (payload : JSON) (event_type : str)
  : list (Prog Delivery.sig unit) :=
  List.map (fun url => fire_single_callback url payload event_type) urls.

(** The event loop after the [for url in urls] loop. *)
Definition spawned (urls : list JSON) (payload : JSON) (event_type : str) (l : Loop)
  : Loop :=
  {| configured := configured l; endpoints := endpoints l;
     created := created l ++ coroutines urls payload event_type;
     completed := completed l;
     emitted := emitted l
                ++ List.map Emit.CreateTask (coroutines urls payload event_type) |}.

(** What awaiting the deliveries to [urls] leaves behind: each task with the
    calls it made. *)
Fixpoint deliveries (net : Net) (first : Task) (urls : list JSON) (payload : JSON)
    (event_type : str) : list (Task * list Delivery.Call) :=
  match urls with
  | [] => []
  | url :: rest =>
    (first, snd (deliver net 0 (fire_single_callback url payload event_type)))
      :: deliveries net (S first) rest payload event_type
  end.

(** *** Sample inputs *)

(** Two clients. *)
Definition alice : str := lit "alice".
Definition bob : str := lit "bob".

(** A process that has just started, with no configuration file around. *)
Definition boot : Process :=
  start 0 (Some [absent; absent]) (fun _ _ => lit "just now") (fun _ => lit "180.0").

(** The same process after alice wrote to bob and 301 seconds went by. *)
Definition stale : Process :=
  steps [Invoke (op_send_message alice bob (lit "hi")); Tick 301000000] boot.

(** The process after alice's first message to bob. *)
Definition settled : Process :=
  steps [Invoke (op_send_message alice bob (lit "hi"))] boot.

(** A subscriber URL. *)
Definition hook : str := lit "http://localhost:9000/hook".

(** An endpoint that answers every request with a 500. *)
Definition broken : Net := fun _ _ => Response 500.

(** An endpoint that answers every request with a 200. *)
Definition healthy : Net := fun _ _ => Response 200.

(** One configuration file, with one subscriber for connect events. *)
Definition subscribers : option (list ConfigFile) :=
  Some [ parsed (JObj [ (lit "callbacks",
                         JObj [ (lit "connect", JArr [JStr hook]) ]) ]) ].

(** *** The claims under correction, as worded *)

(** C1 as the specification words it: the send returns a warning and the
    message is in the recipient's mailbox afterwards. *)
Definition warned_and_enqueued (w : Process) (s r c : str) : Prop :=
  exists result w',
    run (MessagingServer.send_message s r c) w = (Returned result, w')
    /\ startswith result (lit "⚠️") = true
    /\ exists m,
         m ∈ fst (InMemoryQueueBackend.get_messages r true (backend_queues w'))
         /\ from_client_id m = s /\ content m = c.

(** The calls a send makes once the sender's configuration is resolved. *)
Definition send_calls (w : Process) (s r c : str) : list Server.Call :=
  drop (length (journal w ++ config_calls w s))
       (journal (snd (run (MessagingServer.send_message s r c) w))).

(** C6 as the specification words it: validation comes first, so a send
    that fails it does nothing else. *)
Definition validates_then_sweeps (w : Process) (s r c : str) : Prop :=
  send_calls w s r c
  = if blank s || blank r then []
    else [ Server.CleanupExpiredMessages; Server.DatetimeNow;
           Server.SendMessage r (letter w s c); Server.NotifyNewMessage r ].

(** C3 as the specification words it: only an empty sender or recipient
    keeps [send_message_and_wait] from waiting. *)
Definition waits_unless_invalid (w : Process) (s r c : str) : Prop :=
  if blank s || blank r
  then exists result w',
         run (MessagingServer.send_message_and_wait s r c) w = (Returned result, w')
  else exists timeout k w',
         run (MessagingServer.send_message_and_wait s r c) w
         = (Suspended s timeout k, w').

(** C2 as the specification words it, for one operation: whenever it waits,
    what it returns on a timeout differs from what it returns when it was
    notified but found its mailbox empty. *)
Definition distinguishes (p : Coroutine str) : Prop :=
  forall w client_id timeout k w1,
    run p w = (Suspended client_id timeout k, w1) ->
    forall w2 w3,
      mailbox w3 client_id = [] ->
      fst (run (k false) w2) <> fst (run (k true) w3).

(** C7 as the specification words it, for one call: sweep, pop, return the
    messages or wait, then pop once more on a notification. *)
Definition follows_receive_steps (w : Process) (client_id : str) : Prop :=
  let w1 := swept w client_id in
  let w2 := answered (Server.GetMessages client_id true) w1 in
  match mailbox w1 client_id with
  | (_ :: _) as messages =>
    run (MessagingServer.get_messages client_id) w
    = (Returned (markdown (relative_time w (clock w)) client_id messages),
       answered_all (time_calls messages) w2)
  | [] =>
    exists k,
      run (MessagingServer.get_messages client_id) w
      = (Suspended client_id (timeout_for w client_id (lit "get_messages")) k,
         answered (Server.WaitForNewMessage client_id
                     (timeout_for w client_id (lit "get_messages"))) w2)
      /\ (forall w3, run (k false) w3 = (Returned no_messages, w3))
      /\ (forall w3, run (k true) w3 = collect no_messages client_id w3)
  end.

(** C5 as the specification words it: when [fire_callbacks] returns, no
    delivery has been awaited. *)
Definition returns_at_dispatch (files : option (list ConfigFile)) (net : Net)
    (event_type : str) (payload : JSON) : Prop :=
  let r := emit (fire_callbacks event_type payload) (idle files net) in
  fst r = Ok tt
  /\ completed (snd r) = []
  /\ Forall (fun c => match c with Emit.Gather _ _ => False | _ => True end)
       (emitted (snd r)).

(** *** Configuration files *)

(** A value is a JSON object. *)
Definition is_object (v : JSON) : bool :=
  match v with JObj _ => true | _ => false end.

(** The search passes a directory by: it holds no file, or an object whose
    [my_id] is not the client's. *)
Definition passed_by (client_id : str) (f : ConfigFile) : Prop :=
  f = absent
  \/ exists d, f = parsed (JObj d)
               /\ dict_get (lit "my_id") d <> Some (JStr client_id).

(** A file stops the search with an exception: it cannot be read, it does
    not hold an object, or it is the client's and its [message_config] or
    the [timeouts] in it is not an object. *)
Definition breaks_search (client_id : str) (f : ConfigFile) : Prop :=
  f = unreadable
  \/ (exists v, f = parsed v /\ is_object v = false)
  \/ (exists d mc, f = parsed (JObj d)
        /\ dict_get (lit "my_id") d = Some (JStr client_id)
        /\ dict_get (lit "message_config") d = Some mc
        /\ (is_object mc = false
            \/ exists dm t, mc = JObj dm
                 /\ dict_get (lit "timeouts") dm = Some t
                 /\ is_object t = false)).

(** [d.get(key, default)] on a dictionary. *)
Definition dict_get_default (key : str) (d : dict) (default : JSON) : JSON :=
  match dict_get key d with
  | Some v => v
  | None => default
  end.

(** *** Callback lists *)

(** No two entries of a list are equal as dictionary keys. *)
Definition distinct_keys (l : list JSON) : Prop :=
  forall i j x y,
    l !! i = Some x -> l !! j = Some y -> key_eqb x y = true -> i = j.

(** The entries a file gives for an event: a list stands for its elements,
    any other value for itself. *)
Definition entries (event : str) (dc : dict) : list JSON :=
  match dict_get event dc with
  | Some (JArr items) => items
  | Some value => [value]
  | None => []
  end.

(** The [callbacks] object of a file, if the file holds an object with
    one. *)
Definition callbacks_of (f : ConfigFile) : option dict :=
  match f with
  | parsed (JObj d) =>
    match dict_get (lit "callbacks") d with
    | Some (JObj dc) => Some dc
    | _ => None
    end
  | _ => None
  end.

(** The entries a file gives for an event. *)
Definition given (event : str) (f : ConfigFile) : list JSON :=
  match callbacks_of f with
  | Some dc => entries event dc
  | None => []
  end.

(** The entries the files give for an event, in the order of the scan. *)
Definition collected (event : str) (fs : list ConfigFile) : list JSON :=
  concat (List.map (given event) fs).

(** Files matched by the scan: one with callbacks for both events, one that
    cannot be read, one whose [callbacks] is a list, one that repeats a
    URL. *)
Definition recipients_files : list ConfigFile :=
  [ parsed (JObj [ (lit "my_id", JStr alice);
                   (lit "callbacks",
                    JObj [ (lit "connect",
                            JArr [JStr hook; JStr (lit "http://localhost:9001/hook")]);
                           (lit "disconnect", JStr hook) ]) ]);
    unreadable;
    parsed (JObj [ (lit "callbacks", JArr [JStr (lit "connect")]) ]);
    parsed (JObj [ (lit "callbacks", JObj [ (lit "connect", JStr hook) ]) ]) ].

(** A file whose [connect] entry holds a list inside the list. *)
Definition nested_file : ConfigFile :=
  parsed (JObj [ (lit "callbacks", JObj [ (lit "connect", JArr [JArr []]) ]) ]).

(** *** Mailboxes and waiters *)

(** A suspended caller goes on with the rest of [get_messages] or of
    [send_message_and_wait], for the client and the timeout it waits
    with. *)
Definition from_method (wt : Waiter) : Prop :=
  resume wt = MessagingServer.messages_after_wait (waiting_on wt)
  \/ resume wt = MessagingServer.reply_after_wait (waiting_on wt) (wait_timeout wt).

(** What holds in every state of the process, beside [sound]. *)
Definition tidy (w : Process) : Prop :=
  sound w /\ Forall from_method (suspended w)
  /\ backend_expiration w = 300000000%Z.

(** What a step of the server keeps. *)
Definition preserves (w w' : Process) : Prop :=
  clock w' = clock w
  /\ backend_expiration w' = backend_expiration w
  /\ (Forall from_method (suspended w) -> Forall from_method (suspended w')).

(** The clock and the rendering of times are those of an earlier state. *)
Definition same_env (w w' : Process) : Prop :=
  relative_time w' = relative_time w /\ clock w' = clock w
  /\ backend_expiration w' = backend_expiration w.

(* ===================================================================== *)
(** ** Properties *)
(* ===================================================================== *)

(** *** Strings *)

Example lit_cross : lit "❌" = [10060].
Proof. reflexivity. Qed.

Example lit_warning : lit "⚠️" = [9888; 65039].
Proof. reflexivity. Qed.

Example decimal_4096 : decimal 4096 = lit "4096".
Proof. reflexivity. Qed.

Example strip_example : strip (lit "  a b ") = lit "a b".
Proof. reflexivity. Qed.

Example blank_nbsp : blank [160; 32; 9] = true.
Proof. reflexivity. Qed.

Lemma str_eqb_eq a b : str_eqb a b = true <-> a = b.
Proof. unfold str_eqb. apply bool_decide_eq_true. Qed.

Lemma py_eq_str_true v s : py_eq_str v s = true -> v = JStr s.
Proof.
  destruct v; simpl; try discriminate.
  intros H. apply str_eqb_eq in H. by subst.
Qed.

(** *** Configuration lookup *)

Lemma read_config_unmatched client_id config :
  ~ matches client_id (parsed config) ->
  read_config client_id config = Ok None \/ read_config client_id config = Raised.
Proof.
  intros Hno. unfold read_config.
  destruct config as [| | | | |d]; simpl; auto.
  destruct (dict_get (lit "my_id") d) as [v|] eqn:Hget; simpl.
  - destruct (py_eq_str v client_id) eqn:Heq; auto.
    apply py_eq_str_true in Heq. subst v.
    exfalso. apply Hno. exists d. auto.
  - auto.
Qed.

Lemma visit_unmatched client_id f :
  ~ matches client_id f ->
  visit client_id f = Ok None \/ visit client_id f = Raised.
Proof.
  destruct f; simpl; auto. apply read_config_unmatched.
Qed.

Lemma walk_unmatched client_id dirs :
  Forall (fun f => ~ matches client_id f) (removelast dirs) ->
  walk client_id dirs = Ok None \/ walk client_id dirs = Raised.
Proof.
  induction dirs as [|f [|g rest] IH]; intros Hall; simpl; auto.
  simpl in Hall. inversion Hall as [|? ? Hf Hrest]; subst.
  destruct (visit_unmatched Hf) as [-> | ->]; [|by right].
  apply IH. exact Hrest.
Qed.

(** C8 (confirmed). [load_client_config] is a total function into [Config]:
    whatever happens inside its [try] block, the caller gets a configuration
    and never an exception. When no directory below the root holds a
    configuration whose [my_id] is the client's, or when the lookup raises,
    the result is [DEFAULT_CONFIG], whose timeouts are 180 s for
    send-and-wait, 60 s for receive and 300 s for message expiration. *)
Theorem load_client_config_falls_back (disk : Disk) (client_id : str) :
  no_source disk client_id \/ read_fails disk client_id ->
  load_client_config disk client_id = DEFAULT_CONFIG
  /\ MessagingServer.timeout_of (load_client_config disk client_id)
       (lit "send_message_and_wait") = Ok (JNum 180)
  /\ MessagingServer.timeout_of (load_client_config disk client_id)
       (lit "get_messages") = Ok (JNum 60)
  /\ MessagingServer.timeout_of (load_client_config disk client_id)
       (lit "message_expiration") = Ok (JNum 300).
Proof.
  intros H.
  assert (Hd : load_client_config disk client_id = DEFAULT_CONFIG).
  { unfold load_client_config. destruct H as [(dirs & -> & Hall) | Hfail].
    - simpl. destruct (walk_unmatched _ Hall) as [-> | ->]; reflexivity.
    - unfold read_fails in Hfail. by rewrite Hfail. }
  rewrite Hd. repeat split; reflexivity.
Qed.

Lemma load_client_config_falls_back_witness :
  (no_source (Some [parsed (JObj [(lit "my_id", JStr (lit "carol"))]); absent; absent])
     (lit "alice")
   \/ read_fails (Some [parsed (JObj [(lit "my_id", JStr (lit "carol"))]); absent; absent])
        (lit "alice"))
  /\ load_client_config
       (Some [parsed (JObj [(lit "my_id", JStr (lit "carol"))]); absent; absent])
       (lit "alice") = DEFAULT_CONFIG.
Proof.
  assert (H : no_source
                (Some [parsed (JObj [(lit "my_id", JStr (lit "carol"))]); absent; absent])
                (lit "alice")).
  { eexists. split; [reflexivity|]. simpl.
    repeat constructor.
    - intros (d & Hd & Hget). injection Hd as <-. vm_compute in Hget. discriminate.
    - intros (d & Hd & _). discriminate. }
  split; [left; exact H|].
  exact (proj1 (load_client_config_falls_back (or_introl H))).
Defined.

Example load_client_config_reads_overrides :
  MessagingServer.timeout_of
    (load_client_config
       (Some [ absent;
               parsed (JObj [ (lit "my_id", JStr (lit "alice"));
                              (lit "message_config",
                               JObj [ (lit "timeouts",
                                       JObj [(lit "get_messages", JNum 5)]) ]) ]);
               absent ])
       (lit "alice"))
    (lit "get_messages") = Ok (JNum 5).
Proof. vm_compute. reflexivity. Qed.

Example load_client_config_stops_at_unreadable :
  load_client_config
    (Some [ unreadable;
            parsed (JObj [ (lit "my_id", JStr (lit "alice"));
                           (lit "message_config",
                            JObj [ (lit "max_tokens", JNum 1) ]) ]);
            absent ])
    (lit "alice") = DEFAULT_CONFIG.
Proof. vm_compute. reflexivity. Qed.

(** *** Running the methods *)

Lemma run_bind {A B} (m : Coroutine A) (f : A -> Coroutine B) (w : Process) :
  run (m ≫= f) w =
  match run m w with
  | (Returned a, w') => run (f a) w'
  | (Crashed, w') => (Crashed, w')
  | (Suspended c t k, w') => (Suspended c t (fun b => k b ≫= f), w')
  end.
Proof.
  revert w. induction m as [a| |c k IH]; intros w; try reflexivity.
  change (Do c k ≫= f) with (Do c (fun r => k r ≫= f)).
  simpl. destruct (react c (log_call c w)); [apply IH | reflexivity].
Qed.

Lemma run_get_client_config (client_id : str) (w : Process) :
  run (MessagingServer.get_client_config client_id) w
  = (Returned (resolved w client_id), looked_up w client_id).
Proof.
  unfold resolved, looked_up.
  destruct (self_client_configs w !! client_id) as [config|] eqn:E.
  - cbn. rewrite E. reflexivity.
  - cbn. rewrite E. reflexivity.
Qed.

Lemma run_message_blocks ms parts w :
  run (MessagingServer.message_blocks ms parts) w
  = (Returned (blocks (relative_time w (clock w)) ms parts),
     answered_all (time_calls ms) w).
Proof.
  revert parts w. induction ms as [|m ms IH]; intros parts w; [reflexivity|].
  cbn -[MessagingServer.message_block]. 
  change (log_call _ w) with (answered (Server.FormatRelativeTime (timestamp m)) w) at 1.
  rewrite IH. reflexivity.
Qed.

Lemma run_format client_id ms w :
  run (MessagingServer._format_messages_as_markdown client_id ms) w
  = (Returned (markdown (relative_time w (clock w)) client_id ms),
     answered_all (time_calls ms) w).
Proof.
  unfold MessagingServer._format_messages_as_markdown.
  rewrite run_bind, run_message_blocks. reflexivity.
Qed.

Lemma journal_answered c w : journal (answered c w) = journal w ++ [c].
Proof. destruct c; reflexivity. Qed.

Lemma journal_looked_up w client_id :
  journal (looked_up w client_id) = journal w ++ config_calls w client_id.
Proof.
  unfold looked_up, config_calls.
  destruct (self_client_configs w !! client_id); cbn; [done|].
  by rewrite <- !app_assoc.
Qed.

Lemma looked_up_backend w client_id :
  backend_queues (looked_up w client_id) = backend_queues w
  /\ backend_expiration (looked_up w client_id) = backend_expiration w
  /\ suspended (looked_up w client_id) = suspended w
  /\ clock (looked_up w client_id) = clock w
  /\ disk (looked_up w client_id) = disk w.
Proof.
  unfold looked_up. destruct (self_client_configs w !! client_id); cbn; done.
Qed.

Lemma looked_up_cached w client_id :
  self_client_configs (looked_up w client_id) !! client_id = Some (resolved w client_id).
Proof.
  unfold looked_up, resolved.
  destruct (self_client_configs w !! client_id) eqn:E; cbn; [done|].
  apply lookup_insert_eq.
Qed.

Lemma run_send_message w s r c :
  run (MessagingServer.send_message s r c) w
  = (Returned (send_result s r c),
     if accepted s r c then delivered w s r c else swept w s).
Proof.
  unfold MessagingServer.send_message, send_result, accepted.
  rewrite run_bind, run_get_client_config.
  cbn -[lit]. fold (swept w s).
  destruct (blank s); [reflexivity|].
  destruct (blank r); [reflexivity|].
  destruct (blank c); [reflexivity|].
  cbn -[lit]. unfold delivered, letter.
  destruct (looked_up_backend w s) as (_ & _ & _ & Hc & _).
  rewrite <- Hc. reflexivity.
Qed.

(** *** Loaded configurations are well formed *)

Lemma dict_get_app key d1 d2 :
  dict_get key (d1 ++ d2)
  = match dict_get key d2 with
    | Some v => Some v
    | None => dict_get key d1
    end.
Proof.
  induction d1 as [|[k v] d1 IH]; simpl.
  - by destruct (dict_get key d2).
  - rewrite IH. destruct (dict_get key d2); reflexivity.
Qed.

Lemma merged_timeouts_well_formed mt mi d :
  well_formed (JObj [ (lit "max_tokens", mt); (lit "max_iterations", mi);
                      (lit "timeouts", JObj (dict_merge DEFAULT_TIMEOUTS d)) ]).
Proof.
  unfold well_formed, MessagingServer.timeout_of, dict_merge.
  change (py_getitem (JObj [(lit "max_tokens", mt); (lit "max_iterations", mi);
            (lit "timeouts", JObj (DEFAULT_TIMEOUTS ++ d))]) (lit "timeouts"))
    with (Ok (JObj (DEFAULT_TIMEOUTS ++ d))).
  cbn [mbind exc_bind py_getitem]. rewrite !dict_get_app.
  destruct (dict_get (lit "send_message_and_wait") d),
           (dict_get (lit "get_messages") d); eauto.
Qed.

Lemma read_config_well_formed client_id config c :
  read_config client_id config = Ok (Some c) -> well_formed c.
Proof.
  unfold read_config.
  destruct (py_get config (lit "my_id") JNull) as [my_id|]; [|discriminate].
  cbn [mbind exc_bind].
  destruct (py_eq_str my_id client_id); [|discriminate].
  destruct (py_get config (lit "message_config") (JObj [])) as [mc|]; [|discriminate].
  cbn [mbind exc_bind].
  destruct (py_get mc (lit "max_tokens") (JNum 4096)) as [mt|]; [|discriminate].
  cbn [mbind exc_bind].
  destruct (py_get mc (lit "max_iterations") (JNum 10)) as [mi|]; [|discriminate].
  cbn [mbind exc_bind].
  destruct (py_get mc (lit "timeouts") (JObj [])) as [ov|]; [|discriminate].
  cbn [mbind exc_bind].
  destruct ov; try discriminate.
  cbn [mbind exc_bind py_merge]. intros [= <-].
  apply merged_timeouts_well_formed.
Qed.

Lemma walk_well_formed client_id dirs c :
  walk client_id dirs = Ok (Some c) -> well_formed c.
Proof.
  induction dirs as [|f [|g rest] IH]; simpl; try discriminate.
  destruct (visit client_id f) as [[c'|]|] eqn:Hv; cbn [mbind exc_bind];
    try discriminate.
  - intros [= <-]. destruct f; simpl in Hv; try discriminate.
    eapply read_config_well_formed; eauto.
  - apply IH.
Qed.

Lemma default_well_formed : well_formed DEFAULT_CONFIG.
Proof. exists (JNum 180), (JNum 60). split; reflexivity. Qed.

Lemma load_client_config_well_formed d client_id :
  well_formed (load_client_config d client_id).
Proof.
  unfold load_client_config.
  destruct (try_load d client_id) as [[c|]|] eqn:E;
    try apply default_well_formed.
  destruct d as [dirs|]; simpl in E; [|discriminate].
  eapply walk_well_formed; eauto.
Qed.

Lemma resolved_well_formed w client_id :
  well_configured w -> well_formed (resolved w client_id).
Proof.
  intros Hw. unfold resolved.
  destruct (self_client_configs w !! client_id) eqn:E; eauto.
  apply load_client_config_well_formed.
Qed.

Lemma sent_not_refused r :
  startswith (lit "✅ **Message sent successfully** to `" ++ r ++ lit "`") (lit "❌")
  || startswith (lit "✅ **Message sent successfully** to `" ++ r ++ lit "`") (lit "⚠️")
  = false.
Proof. reflexivity. Qed.

Lemma send_result_refused s r c :
  startswith (send_result s r c) (lit "❌") || startswith (send_result s r c) (lit "⚠️")
  = negb (accepted s r c).
Proof.
  unfold send_result, accepted.
  destruct (blank s); [reflexivity|].
  destruct (blank r); [reflexivity|].
  destruct (blank c); [reflexivity|].
  apply sent_not_refused.
Qed.

Opaque lit decimal.

Lemma run_reply_true s t w2 :
  run (MessagingServer.reply_after_wait s t true) w2 = collect no_response s w2.
Proof.
  unfold MessagingServer.reply_after_wait, queue_backend.get_messages.
  rewrite run_bind. cbn [run perform react].
  unfold collect, mailbox.
  change (backend_queues (log_call _ w2)) with (backend_queues w2).
  cbn [InMemoryQueueBackend.get_messages].
  destruct (default [] (backend_queues w2 !! s)) as [|m ms] eqn:E.
  - reflexivity.
  - rewrite run_format. reflexivity.
Qed.

Lemma run_reply_false s t w2 :
  run (MessagingServer.reply_after_wait s t false) w2
  = (Returned (timed_out (value_str w2 t)), answered (Server.FormatValue t) w2).
Proof. reflexivity. Qed.

Lemma run_messages_true c w2 :
  run (MessagingServer.messages_after_wait c true) w2 = collect no_messages c w2.
Proof.
  unfold MessagingServer.messages_after_wait, queue_backend.get_messages.
  rewrite run_bind. cbn [run perform react].
  unfold collect, mailbox.
  change (backend_queues (log_call _ w2)) with (backend_queues w2).
  cbn [InMemoryQueueBackend.get_messages].
  destruct (default [] (backend_queues w2 !! c)) as [|m ms] eqn:E.
  - reflexivity.
  - rewrite run_format. reflexivity.
Qed.

Lemma run_messages_false c w2 :
  run (MessagingServer.messages_after_wait c false) w2 = (Returned no_messages, w2).
Proof. reflexivity. Qed.

Lemma run_cleanup {A} (f : unit -> Coroutine A) w :
  run (queue_backend.cleanup_expired_messages ≫= f) w
  = run (f tt) (answered Server.CleanupExpiredMessages w).
Proof. reflexivity. Qed.

Lemma run_pop {A} c (f : list Message -> Coroutine A) w :
  run (queue_backend.get_messages c true ≫= f) w
  = run (f (mailbox w c)) (answered (Server.GetMessages c true) w).
Proof. reflexivity. Qed.

Lemma run_wait {A} c t (f : bool -> Coroutine A) w :
  run (queue_backend.wait_for_new_message c t ≫= f) w
  = (Suspended c t f, answered (Server.WaitForNewMessage c t) w).
Proof. reflexivity. Qed.

Lemma run_get_messages w c :
  well_configured w ->
  run (MessagingServer.get_messages c) w = received w c.
Proof.
  intros Hw.
  destruct (resolved_well_formed c Hw) as (t1 & t2 & H1 & H2).
  unfold received, timeout_for. rewrite H2.
  unfold MessagingServer.get_messages.
  rewrite run_bind, run_get_client_config. rewrite H2.
  cbn [escape].
  change (Ret t2 ≫= ?f) with (f t2). cbv beta.
  rewrite run_cleanup. fold (swept w c).
  destruct (blank c); [reflexivity|].
  rewrite run_pop. unfold collect.
  destruct (mailbox (swept w c) c) as [|m ms] eqn:E.
  - apply run_wait.
  - rewrite run_format. reflexivity.
Qed.

(** *** The invariant of the process *)

Lemma loads_app client_id j1 j2 :
  loads client_id (j1 ++ j2) = (loads client_id j1 + loads client_id j2)%nat.
Proof. unfold loads. by rewrite List.filter_app, length_app. Qed.

Lemma notify_ok client_id l :
  Forall waiter_ok l -> Forall waiter_ok (notify client_id <$> l).
Proof.
  intros H. apply Forall_fmap. eapply Forall_impl; [exact H|].
  intros wt Hwt. unfold notify. simpl. destruct (str_eqb _ _); exact Hwt.
Qed.

Lemma answered_backend_cache c w :
  backend_call c = true ->
  self_client_configs (answered c w) = self_client_configs w.
Proof. destruct c; try discriminate; reflexivity. Qed.

Lemma answered_backend_waiters c w :
  Forall waiter_ok (suspended w) -> Forall waiter_ok (suspended (answered c w)).
Proof.
  intros H. destruct c; try exact H.
  apply notify_ok, H.
Qed.

Lemma loads_backend client_id c :
  backend_call c = true -> loads client_id [c] = 0%nat.
Proof. destruct c; try discriminate; reflexivity. Qed.

Lemma sound_backend_call c w :
  backend_call c = true -> sound w -> sound (answered c w).
Proof.
  intros Hc (Hcfg & Hone & Hws). split; [|split].
  - intros cid config. rewrite answered_backend_cache by done. apply Hcfg.
  - intros cid. rewrite journal_answered, loads_app, answered_backend_cache by done.
    rewrite Hone, loads_backend by done. lia.
  - apply answered_backend_waiters, Hws.
Qed.

Lemma cache_looked_up w client_id :
  self_client_configs (looked_up w client_id)
  = match self_client_configs w !! client_id with
    | Some _ => self_client_configs w
    | None => <[client_id := load_client_config (disk w) client_id]>
                (self_client_configs w)
    end.
Proof.
  unfold looked_up. destruct (self_client_configs w !! client_id); reflexivity.
Qed.

Lemma sound_looked_up client_id w : sound w -> sound (looked_up w client_id).
Proof.
  intros (Hcfg & Hone & Hws).
  destruct (looked_up_backend w client_id) as (_ & _ & Hsus & _).
  split; [|split]; [| |by rewrite Hsus].
  - intros cid config. rewrite cache_looked_up.
    destruct (self_client_configs w !! client_id) eqn:E; [apply Hcfg|].
    rewrite lookup_insert. case_decide as Heq; [|apply Hcfg].
    intros [= <-]. apply load_client_config_well_formed.
  - intros cid. specialize (Hone cid).
    rewrite journal_looked_up, loads_app, Hone, cache_looked_up.
    unfold config_calls.
    destruct (self_client_configs w !! client_id) eqn:E.
    + change (loads cid [Server.ClientConfigsGet client_id]) with 0%nat. lia.
    + rewrite lookup_insert. unfold loads. cbn [List.filter is_load].
      unfold str_eqb. case_decide as Heq.
      * subst cid. rewrite E, bool_decide_eq_true_2 by done. reflexivity.
      * rewrite bool_decide_eq_false_2 by done.
        destruct (self_client_configs w !! cid); cbn [length]; lia.
Qed.

Lemma run_sound A (p : Coroutine A) :
  disciplined p ->
  forall w, sound w -> sound (snd (run p w)) /\ continues (fst (run p w)).
Proof.
  induction 1 as [A a|A|A c k Hc Hk IH|client_id|A B m k Hm IHm Hk IHk];
    intros w Hw.
  - split; [exact Hw|exact I].
  - split; [exact Hw|exact I].
  - pose proof (sound_backend_call c Hc Hw) as Hw'.
    unfold answered in Hw'. cbn [run].
    destruct (react c (log_call c w)) as [r w2|cid t wake] eqn:E.
    + apply IH, Hw'.
    + split; [exact Hw'|]. intros b. apply Hk.
  - rewrite run_get_client_config. split; [|exact I].
    apply sound_looked_up, Hw.
  - rewrite run_bind. destruct (IHm w Hw) as [Hw' Hcont].
    destruct (run m w) as [[a| |cid t kk] w'].
    + apply IHk, Hw'.
    + split; [exact Hw'|exact I].
    + split; [exact Hw'|]. intros b. apply disciplined_bind; [apply Hcont|apply Hk].
Qed.

Lemma disciplined_escape A (m : exc A) : disciplined (escape m).
Proof. destruct m; constructor. Qed.

Lemma disciplined_message_blocks ms parts :
  disciplined (MessagingServer.message_blocks ms parts).
Proof.
  revert parts. induction ms as [|m ms IH]; intros parts; simpl.
  - constructor.
  - apply disciplined_call; [reflexivity|]. intros r. apply IH.
Qed.

Lemma disciplined_format client_id ms :
  disciplined (MessagingServer._format_messages_as_markdown client_id ms).
Proof.
  apply disciplined_bind; [apply disciplined_message_blocks|]. intros a. constructor.
Qed.

Ltac discipline_step :=
  unfold queue_backend.cleanup_expired_messages, queue_backend.send_message,
    queue_backend.notify_new_message, queue_backend.wait_for_new_message,
    queue_backend.get_messages, env.datetime_now, env.format_relative_time,
    env.format_value;
  first
    [ apply disciplined_lookup
    | apply disciplined_format
    | apply disciplined_escape
    | apply disciplined_ret
    | unfold perform; apply disciplined_call; [reflexivity|intros ?; apply disciplined_ret]
    | apply disciplined_bind; [|intros ?] ].

Lemma disciplined_send_message s r c :
  disciplined (MessagingServer.send_message s r c).
Proof.
  unfold MessagingServer.send_message.
  do 2 (apply disciplined_bind; [discipline_step|intros ?]).
  destruct (blank s); [discipline_step|].
  destruct (blank r); [discipline_step|].
  destruct (blank c); [discipline_step|].
  do 3 (apply disciplined_bind; [discipline_step|intros ?]).
  discipline_step.
Qed.

Lemma disciplined_reply_after_wait s t b :
  disciplined (MessagingServer.reply_after_wait s t b).
Proof.
  unfold MessagingServer.reply_after_wait. destruct b.
  - apply disciplined_bind; [discipline_step|intros ms].
    destruct ms; discipline_step.
  - apply disciplined_bind; [discipline_step|intros shown]. discipline_step.
Qed.

Lemma disciplined_messages_after_wait c b :
  disciplined (MessagingServer.messages_after_wait c b).
Proof.
  unfold MessagingServer.messages_after_wait. destruct b; [|discipline_step].
  apply disciplined_bind; [discipline_step|intros ms].
  destruct ms; discipline_step.
Qed.

Lemma disciplined_body op : disciplined (body op).
Proof.
  destruct op as [s r c|s r c|c]; simpl.
  - apply disciplined_send_message.
  - unfold MessagingServer.send_message_and_wait.
    apply disciplined_bind; [apply disciplined_lookup|]. intros config.
    apply disciplined_bind; [apply disciplined_escape|]. intros t.
    apply disciplined_bind; [apply disciplined_send_message|]. intros res.
    destruct (_ || _); [constructor|].
    apply disciplined_bind; [discipline_step|]. intros b.
    apply disciplined_reply_after_wait.
  - unfold MessagingServer.get_messages.
    apply disciplined_bind; [apply disciplined_lookup|]. intros config.
    apply disciplined_bind; [apply disciplined_escape|]. intros t.
    apply disciplined_bind; [discipline_step|]. intros _.
    destruct (blank c); [constructor|].
    apply disciplined_bind; [discipline_step|]. intros ms.
    destruct ms; [|apply disciplined_format].
    apply disciplined_bind; [discipline_step|]. intros b.
    apply disciplined_messages_after_wait.
Qed.

Lemma sound_settle (r : Outcome str * Process) :
  sound (snd r) -> continues (fst r) -> sound (snd (settle r)).
Proof.
  destruct r as [[res| |cid t k] w]; simpl; try done.
  intros (Hcfg & Hone & Hws) Hk. split; [|split]; try done.
  apply Forall_app. split; [exact Hws|]. by apply Forall_singleton.
Qed.

Lemma sound_resume i wt b w :
  sound w -> suspended w !! i = Some wt ->
  sound (snd (settle (run (resume wt b) (set_suspended (delete i (suspended w)) w)))).
Proof.
  intros (Hcfg & Hone & Hws) Hi.
  assert (Hwt : waiter_ok wt).
  { eapply Forall_lookup_1 in Hws; eauto. }
  assert (Hw' : sound (set_suspended (delete i (suspended w)) w)).
  { split; [|split]; try done. simpl. by apply Forall_delete. }
  destruct (run_sound (Hwt b) Hw') as [H1 H2].
  by apply sound_settle.
Qed.

Lemma sound_step a w : sound w -> sound (snd (step a w)).
Proof.
  intros Hw. destruct a as [op|i|i|dt|d]; simpl.
  - destruct (run_sound (disciplined_body op) Hw) as [H1 H2].
    pose proof (sound_settle _ H1 H2) as H.
    destruct (settle (run (body op) w)); exact H.
  - destruct (suspended w !! i) as [wt|] eqn:Hi; [|exact Hw].
    destruct (notified wt); [|exact Hw].
    pose proof (@sound_resume i wt true w Hw Hi) as H.
    destruct (settle _); exact H.
  - destruct (suspended w !! i) as [wt|] eqn:Hi; [|exact Hw].
    destruct (notified wt); [exact Hw|].
    pose proof (@sound_resume i wt false w Hw Hi) as H.
    destruct (settle _); exact H.
  - exact Hw.
  - exact Hw.
Qed.

Lemma sound_start now d rel fmt : sound (start now d rel fmt).
Proof.
  split; [|split].
  - intros cid config. simpl. by rewrite lookup_empty.
  - intros cid. simpl. by rewrite lookup_empty.
  - constructor.
Qed.

Lemma sound_steps acts w : sound w -> sound (steps acts w).
Proof.
  revert w. induction acts as [|a acts IH]; intros w Hw; simpl; [exact Hw|].
  apply IH, sound_step, Hw.
Qed.

Lemma reachable_sound w : reachable w -> sound w.
Proof.
  intros (now & d & rel & fmt & acts & ->). apply sound_steps, sound_start.
Qed.

Lemma run_get_messages_any w c :
  run (MessagingServer.get_messages c) w
  = match MessagingServer.timeout_of (resolved w c) (lit "get_messages") with
    | Ok _ => received w c
    | Raised => (Crashed, looked_up w c)
    end.
Proof.
  unfold received, timeout_for, MessagingServer.get_messages.
  rewrite run_bind, run_get_client_config.
  destruct (MessagingServer.timeout_of (resolved w c) (lit "get_messages")) as [t2|];
    [|reflexivity].
  cbn [escape]. change (Ret t2 ≫= ?f) with (f t2). cbv beta.
  rewrite run_cleanup. fold (swept w c).
  destruct (blank c); [reflexivity|].
  rewrite run_pop. unfold collect.
  destruct (mailbox (swept w c) c) as [|m ms] eqn:E.
  - apply run_wait.
  - rewrite run_format. reflexivity.
Qed.

Lemma run_send_message_and_wait_any w s r c :
  run (MessagingServer.send_message_and_wait s r c) w
  = match MessagingServer.timeout_of (resolved w s) (lit "send_message_and_wait") with
    | Ok _ => sent_and_waiting w s r c
    | Raised => (Crashed, looked_up w s)
    end.
Proof.
  unfold sent_and_waiting, timeout_for, MessagingServer.send_message_and_wait.
  rewrite run_bind, run_get_client_config.
  destruct (MessagingServer.timeout_of (resolved w s) (lit "send_message_and_wait"))
    as [t1|]; [|reflexivity].
  cbn [escape]. change (Ret t1 ≫= ?f) with (f t1). cbv beta.
  rewrite run_bind, run_send_message, send_result_refused.
  destruct (accepted s r c); reflexivity.
Qed.

(** *** The cache only grows *)

Lemma keeps_refl w : keeps w w.
Proof. intros cid c H. exact H. Qed.

Lemma keeps_trans w1 w2 w3 : keeps w1 w2 -> keeps w2 w3 -> keeps w1 w3.
Proof. intros H12 H23 cid c H. apply H23, H12, H. Qed.

Lemma keeps_looked_up w client_id : keeps w (looked_up w client_id).
Proof.
  intros cid c H. rewrite cache_looked_up.
  destruct (self_client_configs w !! client_id) eqn:E; [exact H|].
  rewrite lookup_insert_ne; [exact H|]. intros ->. congruence.
Qed.

Lemma run_keeps A (p : Coroutine A) :
  disciplined p -> forall w, keeps w (snd (run p w)).
Proof.
  induction 1 as [A a|A|A c k Hc Hk IH|client_id|A B m k Hm IHm Hk IHk];
    intros w.
  - apply keeps_refl.
  - apply keeps_refl.
  - pose proof (answered_backend_cache c w Hc) as Hcache.
    unfold answered in Hcache. cbn [run].
    destruct (react c (log_call c w)) as [r w2|cid t wake] eqn:E.
    + eapply keeps_trans; [|apply IH]. intros x cfg H. by rewrite Hcache.
    + intros x cfg H. exact H.
  - rewrite run_get_client_config. apply keeps_looked_up.
  - rewrite run_bind. specialize (IHm w).
    destruct (run m w) as [[a| |cid t kk] w']; try exact IHm.
    eapply keeps_trans; [exact IHm|apply IHk].
Qed.

Lemma settle_cache r : self_client_configs (snd (settle r)) = self_client_configs (snd r).
Proof. destruct r as [[res| |cid t k] w]; reflexivity. Qed.

Lemma step_keeps a w : sound w -> keeps w (snd (step a w)).
Proof.
  intros Hw. destruct a as [op|i|i|dt|d]; simpl.
  - pose proof (run_keeps (disciplined_body op) w) as H.
    pose proof (settle_cache (run (body op) w)) as Hs.
    destruct (settle (run (body op) w)). simpl in *.
    intros cid c Hc. rewrite Hs. by apply H.
  - destruct (suspended w !! i) as [wt|] eqn:Hi; [|apply keeps_refl].
    destruct (notified wt); [|apply keeps_refl].
    destruct Hw as (_ & _ & Hws).
    assert (Hwt : waiter_ok wt) by (eapply Forall_lookup_1 in Hws; eauto).
    pose proof (run_keeps (Hwt true) (set_suspended (delete i (suspended w)) w)) as H.
    pose proof (settle_cache (run (resume wt true)
                  (set_suspended (delete i (suspended w)) w))) as Hs.
    destruct (settle _). simpl in *.
    intros cid c Hc. rewrite Hs. by apply H.
  - destruct (suspended w !! i) as [wt|] eqn:Hi; [|apply keeps_refl].
    destruct (notified wt); [apply keeps_refl|].
    destruct Hw as (_ & _ & Hws).
    assert (Hwt : waiter_ok wt) by (eapply Forall_lookup_1 in Hws; eauto).
    pose proof (run_keeps (Hwt false) (set_suspended (delete i (suspended w)) w)) as H.
    pose proof (settle_cache (run (resume wt false)
                  (set_suspended (delete i (suspended w)) w))) as Hs.
    destruct (settle _). simpl in *.
    intros cid c Hc. rewrite Hs. by apply H.
  - intros cid c Hc. exact Hc.
  - intros cid c Hc. exact Hc.
Qed.

Lemma steps_keeps acts w : sound w -> keeps w (steps acts w).
Proof.
  revert w. induction acts as [|a acts IH]; intros w Hw; simpl; [apply keeps_refl|].
  eapply keeps_trans; [apply step_keeps, Hw|]. apply IH, sound_step, Hw.
Qed.

Lemma reachable_steps acts w : reachable w -> reachable (steps acts w).
Proof.
  intros (now & d & rel & fmt & acts0 & ->).
  exists now, d, rel, fmt, (acts0 ++ acts).
  generalize (start now d rel fmt). induction acts0 as [|a acts0 IH]; intros w0; simpl.
  - reflexivity.
  - apply IH.
Qed.

(** *** The callback dispatcher *)

Lemma fire_single_callback_exhausts net url payload event_type :
  (forall n, failed (net url n) = true) ->
  let r := deliver net 0 (fire_single_callback url payload event_type) in
  fst r = Ok tt
  /\ wire (snd r)
     = [ Delivery.Post url payload 5; Delivery.Sleep 1;
         Delivery.Post url payload 5; Delivery.Sleep 2;
         Delivery.Post url payload 5 ]
  /\ levels (snd r) = [WARNING; WARNING; WARNING; ERROR].
Proof.
  intros Hfail.
  pose proof (Hfail 0%nat) as H0. pose proof (Hfail 1%nat) as H1.
  pose proof (Hfail 2%nat) as H2.
  unfold fire_single_callback. cbn [seq max_retries retry_loop].
  cbn -[lit decimal] .
  destruct (net url 0%nat) as [c0| |m0]; cbn -[lit decimal] in H0 |- *;
    [apply negb_true_iff in H0; rewrite H0|..];
  cbn -[lit decimal];
  (destruct (net url 1%nat) as [c1| |m1]; cbn -[lit decimal] in H1 |- *;
    [apply negb_true_iff in H1; rewrite H1|..]);
  cbn -[lit decimal];
  (destruct (net url 2%nat) as [c2| |m2]; cbn -[lit decimal] in H2 |- *;
    [apply negb_true_iff in H2; rewrite H2|..]);
  cbn -[lit decimal]; repeat split; reflexivity.
Qed.

Lemma fire_single_callback_first_try net url payload event_type :
  failed (net url 0%nat) = false ->
  let r := deliver net 0 (fire_single_callback url payload event_type) in
  fst r = Ok tt
  /\ wire (snd r) = [ Delivery.Post url payload 5 ]
  /\ levels (snd r) = [INFO].
Proof.
  intros H0. unfold fire_single_callback. cbn -[lit decimal].
  destruct (net url 0%nat) as [c0| |m0]; cbn -[lit decimal] in H0 |- *;
    try discriminate.
  apply negb_false_iff in H0. rewrite H0. cbn -[lit decimal].
  repeat split; reflexivity.
Qed.

Lemma emit_bind {A B} (m : Prog Emit.sig A) (f : A -> Prog Emit.sig B) l :
  emit (m ≫= f) l
  = match emit m l with
    | (Ok a, l') => emit (f a) l'
    | (Raised, l') => (Raised, l')
    end.
Proof.
  revert l. induction m as [a| |c k IH]; intros l; try reflexivity.
  change (Do c k ≫= f) with (Do c (fun r => k r ≫= f)).
  cbn [emit]. destruct (emit_answer c (emit_log c l)) as [r l']. apply IH.
Qed.

Lemma emit_spawn_all urls payload event_type tasks l :
  emit (spawn_all urls payload event_type tasks) l
  = (Ok (tasks ++ seq (length (created l)) (length urls)),
     spawned urls payload event_type l).
Proof.
  revert tasks l. induction urls as [|url urls IH]; intros tasks l.
  - cbn. unfold spawned, coroutines. cbn. rewrite !app_nil_r. by destruct l.
  - cbn [spawn_all]. unfold Emit.create_task.
    change (@perform Emit.sig ?c ≫= ?f) with (@Do Emit.sig _ c f).
    cbn [emit emit_answer emit_log created configured endpoints completed emitted].
    rewrite IH. unfold spawned, coroutines.
    cbn [created configured endpoints completed emitted List.map length seq].
    rewrite length_app. cbn [length].
    rewrite <- !app_assoc. cbn [app].
    replace (length (created l) + 1)%nat with (S (length (created l))) by lia.
    reflexivity.
Qed.

Lemma gather_all_spawned net pre urls payload event_type post :
  snd (gather_all net (pre ++ coroutines urls payload event_type ++ post)
         (seq (length pre) (length urls)))
  = deliveries net (length pre) urls payload event_type.
Proof.
  revert pre. induction urls as [|url urls IH]; intros pre; [reflexivity|].
  cbn [length seq gather_all coroutines List.map app].
  rewrite (list_lookup_middle pre _ _ (length pre) eq_refl).
  specialize (IH (pre ++ [fire_single_callback url payload event_type])).
  rewrite length_app in IH. cbn [length] in IH.
  replace (length pre + 1)%nat with (S (length pre)) in IH by lia.
  rewrite <- app_assoc in IH. cbn [app] in IH.
  fold (coroutines urls payload event_type).
  cbn [deliveries]. rewrite <- IH.
  destruct (deliver net 0 (fire_single_callback url payload event_type)) as [o calls].
  destruct (gather_all _ _ _) as [os done]. reflexivity.
Qed.

Lemma emit_load_callbacks files net :
  emit Emit.load_callbacks_from_config (idle files net)
  = (load_callbacks_from_config files,
     {| configured := files; endpoints := net; created := []; completed := [];
        emitted := [Emit.LoadCallbacksFromConfig] |}).
Proof.
  unfold Emit.load_callbacks_from_config, idle.
  change (@perform Emit.sig ?c ≫= ?f) with (@Do Emit.sig _ c f).
  cbn [emit emit_answer emit_log configured endpoints created completed emitted app].
  by destruct (load_callbacks_from_config files).
Qed.

Lemma emit_fire_callbacks files net event_type payload :
  emit (fire_callbacks event_type payload) (idle files net)
  = match load_callbacks_from_config files with
    | Raised =>
      (Raised,
       {| configured := files; endpoints := net; created := []; completed := [];
          emitted := [Emit.LoadCallbacksFromConfig] |})
    | Ok callbacks =>
      let urls := Emit.get callbacks event_type in
      (Ok tt,
       {| configured := files; endpoints := net;
          created := coroutines urls payload event_type;
          completed := deliveries net 0 urls payload event_type;
          emitted :=
            [ Emit.LoadCallbacksFromConfig;
              match urls with
              | [] => Emit.Log DEBUG
                        (lit "No callbacks configured for event: " ++ event_type)
              | _ :: _ => Emit.Log INFO
                        (lit "Firing " ++ decimal (N.of_nat (length urls))
                         ++ lit " callback(s) for event: " ++ event_type)
              end ]
            ++ List.map Emit.CreateTask (coroutines urls payload event_type)
            ++ match urls with
               | [] => []
               | _ :: _ => [Emit.Gather (seq 0 (length urls)) true]
               end |})
    end.
Proof.
  unfold fire_callbacks. rewrite emit_bind, emit_load_callbacks.
  destruct (load_callbacks_from_config files) as [callbacks|]; [|reflexivity].
  cbn zeta. set (urls := Emit.get callbacks event_type).
  destruct urls as [|url rest] eqn:E.
  - reflexivity.
  - change (Emit.log ?lv ?m ≫= ?f) with (@Do Emit.sig _ (Emit.Log lv m) f).
    cbn -[lit decimal gather_all coroutines deliveries spawn_all Emit.get].
    rewrite emit_bind, emit_spawn_all.
    pose proof (gather_all_spawned net [] (url :: rest) payload event_type []) as G.
    rewrite app_nil_r in G.
    cbn -[lit decimal gather_all coroutines deliveries spawn_all Emit.get
          fire_single_callback] in G |- *.
    destruct (gather_all net _ _) as [results done] eqn:Eg.
    cbn [snd] in G. subst done.
    cbn -[lit decimal gather_all coroutines deliveries spawn_all Emit.get
          fire_single_callback].
    reflexivity.
Qed.

(** C4 (confirmed). Against an endpoint that fails every attempt (timeout,
    non-2xx status or any other exception), [fire_single_callback] posts
    exactly three times, sleeps 1 s between the first and the second attempt
    and 2 s between the second and the third, logs three warnings and one
    error, and returns normally. Against an endpoint that answers the first
    request with a 2xx it posts exactly once. *)
Theorem fire_single_callback_attempts (net : Net) (url : JSON) (payload : JSON)
    (event_type : str) :
  let r := deliver net 0 (fire_single_callback url payload event_type) in
  ((forall n, failed (net url n) = true) ->
   fst r = Ok tt
   /\ wire (snd r)
      = [ Delivery.Post url payload 5; Delivery.Sleep 1;
          Delivery.Post url payload 5; Delivery.Sleep 2;
          Delivery.Post url payload 5 ]
   /\ levels (snd r) = [WARNING; WARNING; WARNING; ERROR])
  /\ (failed (net url 0%nat) = false ->
      fst r = Ok tt
      /\ wire (snd r) = [ Delivery.Post url payload 5 ]
      /\ levels (snd r) = [INFO]).
Proof.
  intros r. split; intros H.
  - apply fire_single_callback_exhausts, H.
  - apply fire_single_callback_first_try, H.
Qed.

Lemma fire_single_callback_attempts_witness :
  ((forall n, failed (broken (JStr hook) n) = true)
   /\ wire (snd (deliver broken 0
                   (fire_single_callback (JStr hook) JNull (lit "connect"))))
      = [ Delivery.Post (JStr hook) JNull 5; Delivery.Sleep 1;
          Delivery.Post (JStr hook) JNull 5; Delivery.Sleep 2;
          Delivery.Post (JStr hook) JNull 5 ])
  /\ (failed (healthy (JStr hook) 0%nat) = false
      /\ wire (snd (deliver healthy 0
                      (fire_single_callback (JStr hook) JNull (lit "connect"))))
         = [ Delivery.Post (JStr hook) JNull 5 ]).
Proof.
  assert (Hb : forall n, failed (broken (JStr hook) n) = true)
    by (intros n; reflexivity).
  assert (Hh : failed (healthy (JStr hook) 0%nat) = false) by reflexivity.
  split; (split; [assumption|]).
  - exact (proj1 (proj2
      (proj1 (fire_single_callback_attempts broken (JStr hook) JNull (lit "connect"))
         Hb))).
  - exact (proj1 (proj2
      (proj2 (fire_single_callback_attempts healthy (JStr hook) JNull (lit "connect"))
         Hh))).
Defined.

(** C5, counterexample. With one subscriber whose endpoint always answers
    500, [fire_callbacks] has awaited the whole delivery by the time it
    returns. *)
Lemma fire_callbacks_waits_for_deliveries :
  ~ returns_at_dispatch subscribers broken (lit "connect") JNull.
Proof.
  intros (_ & H & _). rewrite emit_fire_callbacks in H.
  replace (load_callbacks_from_config subscribers)
    with (Ok {| connect := [JStr hook]; disconnect := [] |}) in H
    by (vm_compute; reflexivity).
  cbn [snd completed] in H.
  replace (Emit.get {| connect := [JStr hook]; disconnect := [] |} (lit "connect"))
    with [JStr hook] in H by (vm_compute; reflexivity).
  discriminate.
Qed.

(** C5 (corrected). [fire_callbacks] first loads the callbacks of the
    configuration files; if that raises (an entry that cannot be hashed when
    the duplicates are removed), [fire_callbacks] raises with it, having
    created no task. Otherwise it creates one task per entry configured for
    the event and then awaits [asyncio.gather] on all of them: when it
    returns, every delivery it spawned has run to its end (success or
    exhausted retries). Its result is [None] whatever the deliveries met, so
    no aggregate outcome reaches the caller; with no entry configured it
    creates no task and awaits nothing. *)
Theorem fire_callbacks_gathers (files : option (list ConfigFile)) (net : Net)
    (event_type : str) (payload : JSON) :
  let r := emit (fire_callbacks event_type payload) (idle files net) in
  match load_callbacks_from_config files with
  | Raised =>
    fst r = Raised
    /\ created (snd r) = []
    /\ completed (snd r) = []
    /\ emitted (snd r) = [Emit.LoadCallbacksFromConfig]
  | Ok callbacks =>
    let urls := Emit.get callbacks event_type in
    fst r = Ok tt
    /\ created (snd r) = coroutines urls payload event_type
    /\ completed (snd r) = deliveries net 0 urls payload event_type
    /\ emitted (snd r)
       = [ Emit.LoadCallbacksFromConfig;
           match urls with
           | [] => Emit.Log DEBUG
                     (lit "No callbacks configured for event: " ++ event_type)
           | _ :: _ => Emit.Log INFO
                     (lit "Firing " ++ decimal (N.of_nat (length urls))
                      ++ lit " callback(s) for event: " ++ event_type)
           end ]
         ++ List.map Emit.CreateTask (coroutines urls payload event_type)
         ++ match urls with
            | [] => []
            | _ :: _ => [Emit.Gather (seq 0 (length urls)) true]
            end
  end.
Proof.
  intros r. subst r. rewrite emit_fire_callbacks.
  destruct (load_callbacks_from_config files) as [callbacks|].
  - intros urls. repeat split; reflexivity.
  - repeat split; reflexivity.
Qed.

Example fire_callbacks_broken_hook :
  let r := emit (fire_callbacks (lit "connect") JNull) (idle subscribers broken) in
  fst r = Ok tt
  /\ List.map (fun d => (fst d, wire (snd d))) (completed (snd r))
     = [ (0%nat, [ Delivery.Post (JStr hook) JNull 5; Delivery.Sleep 1;
                   Delivery.Post (JStr hook) JNull 5; Delivery.Sleep 2;
                   Delivery.Post (JStr hook) JNull 5 ]) ].
Proof. vm_compute. split; reflexivity. Qed.

(** An entry that holds a list inside the list makes [fire_callbacks] raise
    before anything is logged or spawned; an entry that is a number is
    handed to a delivery like any other. *)
Example fire_callbacks_odd_entries :
  emit (fire_callbacks (lit "disconnect") JNull) (idle (Some [nested_file]) healthy)
  = (Raised,
     {| configured := Some [nested_file]; endpoints := healthy; created := [];
        completed := []; emitted := [Emit.LoadCallbacksFromConfig] |})
  /\ created
       (snd (emit (fire_callbacks (lit "connect") JNull)
               (idle (Some [ parsed (JObj [ (lit "callbacks",
                                             JObj [(lit "connect", JNum 7)]) ]) ])
                  healthy)))
     = [fire_single_callback (JNum 7) JNull (lit "connect")].
Proof.
  split.
  - rewrite emit_fire_callbacks.
    replace (load_callbacks_from_config (Some [nested_file])) with (@Raised CallbackLists)
      by (vm_compute; reflexivity).
    reflexivity.
  - rewrite emit_fire_callbacks.
    replace (load_callbacks_from_config
               (Some [ parsed (JObj [ (lit "callbacks",
                                       JObj [(lit "connect", JNum 7)]) ]) ]))
      with (Ok {| connect := [JNum 7]; disconnect := [] |})
      by (vm_compute; reflexivity).
    cbn [snd created].
    replace (Emit.get {| connect := [JNum 7]; disconnect := [] |} (lit "connect"))
      with [JNum 7] by (vm_compute; reflexivity).
    reflexivity.
Qed.

(** *** Sending *)

Lemma swept_facts w s :
  backend_queues (swept w s) = kept w
  /\ suspended (swept w s) = suspended w
  /\ clock (swept w s) = clock w
  /\ backend_expiration (swept w s) = backend_expiration w
  /\ relative_time (swept w s) = relative_time w
  /\ journal (swept w s) = journal w ++ config_calls w s ++ [Server.CleanupExpiredMessages]
  /\ self_client_configs (swept w s) !! s = Some (resolved w s).
Proof.
  destruct (looked_up_backend w s) as (Hq & He & Hs & Hc & Hd).
  unfold swept, kept. rewrite journal_answered, journal_looked_up, <- app_assoc.
  unfold answered. cbn. rewrite Hq, He, Hs, Hc.
  repeat split; try reflexivity.
  - unfold looked_up. destruct (self_client_configs w !! s); reflexivity.
  - apply looked_up_cached.
Qed.

(** C1, counterexample. Alice sends a whitespace-only message to bob: the
    result is the warning, and bob's mailbox stays empty. *)
Lemma empty_content_is_not_enqueued :
  ~ warned_and_enqueued boot alice bob (lit "  ").
Proof.
  intros (result & w' & Hrun & _ & m & Hm & _).
  rewrite run_send_message in Hrun. injection Hrun as _ <-.
  assert (E : fst (InMemoryQueueBackend.get_messages bob true
                     (backend_queues
                        (if accepted alice bob (lit "  ")
                         then delivered boot alice bob (lit "  ")
                         else swept boot alice))) = [])
    by (vm_compute; reflexivity).
  rewrite E in Hm. by apply elem_of_nil in Hm.
Qed.

(** C1 (corrected). For a sender and a recipient that are non-empty after
    trimming and a content that is empty or whitespace-only, [send_message]
    returns the warning result and enqueues nothing: after the sender's
    configuration was resolved and the expired messages swept, it makes no
    further call, so the mailboxes are those the sweep left and no waiter is
    notified. *)
Theorem send_message_empty_content (w : Process) (s r c : str) :
  blank s = false -> blank r = false -> blank c = true ->
  run (MessagingServer.send_message s r c) w
  = (Returned (lit "⚠️ **Warning**: Sending empty message"), swept w s)
  /\ startswith (lit "⚠️ **Warning**: Sending empty message") (lit "⚠️") = true
  /\ backend_queues (swept w s) = kept w
  /\ suspended (swept w s) = suspended w
  /\ journal (swept w s)
     = journal w ++ config_calls w s ++ [Server.CleanupExpiredMessages].
Proof.
  intros Hs Hr Hc.
  destruct (swept_facts w s) as (Hq & Hsus & _ & _ & _ & Hj & _).
  rewrite run_send_message. unfold send_result, accepted. rewrite Hs, Hr, Hc.
  split; [reflexivity|]. split; [vm_compute; reflexivity|]. auto.
Qed.

Lemma send_message_empty_content_witness :
  blank alice = false /\ blank bob = false /\ blank (lit "  ") = true
  /\ run (MessagingServer.send_message alice bob (lit "  ")) boot
     = (Returned (lit "⚠️ **Warning**: Sending empty message"), swept boot alice).
Proof.
  assert (Ha : blank alice = false) by (vm_compute; reflexivity).
  assert (Hb : blank bob = false) by (vm_compute; reflexivity).
  assert (Hc : blank (lit "  ") = true) by (vm_compute; reflexivity).
  split; [exact Ha|]. split; [exact Hb|]. split; [exact Hc|].
  exact (proj1 (send_message_empty_content boot alice bob (lit "  ") Ha Hb Hc)).
Defined.

Lemma queues_answered_send r m w :
  backend_queues (answered (Server.SendMessage r m) w)
  = InMemoryQueueBackend.send_message r m (backend_queues w).
Proof. reflexivity. Qed.

Lemma queues_answered_notify r w :
  backend_queues (answered (Server.NotifyNewMessage r) w) = backend_queues w.
Proof. reflexivity. Qed.

Lemma queues_answered_now w :
  backend_queues (answered Server.DatetimeNow w) = backend_queues w.
Proof. reflexivity. Qed.

Lemma suspended_answered_notify r w :
  suspended (answered (Server.NotifyNewMessage r) w) = notify r <$> suspended w.
Proof. reflexivity. Qed.

Lemma suspended_answered_send r m w :
  suspended (answered (Server.SendMessage r m) w) = suspended w.
Proof. reflexivity. Qed.

Lemma suspended_answered_now w :
  suspended (answered Server.DatetimeNow w) = suspended w.
Proof. reflexivity. Qed.

Lemma delivered_facts w s r c :
  journal (delivered w s r c)
  = journal w ++ config_calls w s
    ++ [ Server.CleanupExpiredMessages; Server.DatetimeNow;
         Server.SendMessage r (letter w s c); Server.NotifyNewMessage r ]
  /\ backend_queues (delivered w s r c)
     = InMemoryQueueBackend.send_message r (letter w s c) (kept w)
  /\ suspended (delivered w s r c) = notify r <$> suspended w.
Proof.
  destruct (swept_facts w s) as (Hq & Hsus & Hc & He & _ & Hj & _).
  unfold delivered. rewrite !journal_answered, Hj, <- !app_assoc.
  rewrite queues_answered_notify, queues_answered_send, queues_answered_now, Hq.
  rewrite suspended_answered_notify, suspended_answered_send,
    suspended_answered_now, Hsus.
  repeat split; reflexivity.
Qed.

Lemma send_calls_eq w s r c :
  send_calls w s r c
  = Server.CleanupExpiredMessages
    :: (if accepted s r c
        then [ Server.DatetimeNow; Server.SendMessage r (letter w s c);
               Server.NotifyNewMessage r ]
        else []).
Proof.
  unfold send_calls. rewrite run_send_message. cbn [snd].
  destruct (accepted s r c).
  - destruct (delivered_facts w s r c) as (-> & _ & _).
    rewrite app_assoc. apply drop_app_length.
  - destruct (swept_facts w s) as (_ & _ & _ & _ & _ & -> & _).
    rewrite app_assoc. apply drop_app_length.
Qed.

(** C6, counterexample. A send with an empty sender still sweeps. *)
Lemma sweep_precedes_validation :
  ~ validates_then_sweeps stale (lit "") bob (lit "hi").
Proof.
  unfold validates_then_sweeps. rewrite send_calls_eq.
  replace (blank (lit "") || blank bob) with true by (vm_compute; reflexivity).
  discriminate.
Qed.

(** The sweep of a rejected send is visible: bob's expired message is gone. *)
Example rejected_send_sweeps :
  mailbox stale bob = [letter boot alice (lit "hi")]
  /\ mailbox (snd (run (MessagingServer.send_message (lit "") bob (lit "hi")) stale)) bob
     = [].
Proof. split; vm_compute; reflexivity. Qed.

Lemma mailbox_send_message r m q :
  default [] (InMemoryQueueBackend.send_message r m q !! r)
  = default [] (q !! r) ++ [m].
Proof. unfold InMemoryQueueBackend.send_message. by rewrite lookup_insert_eq. Qed.

(** C6 (corrected). Every send first resolves the sender's configuration and
    sweeps the expired messages, and only then validates its input: a
    rejected send has swept the mailboxes and done nothing else. An accepted
    send (sender, recipient and content non-empty after trimming) then reads
    the clock, appends the message to the recipient's mailbox and notifies
    the recipient's waiters, in this order: the notification is issued on a
    state whose mailbox already ends with the message, so a popAll by a
    woken waiter returns it. *)
Theorem send_message_order (w : Process) (s r c : str) :
  let w' := snd (run (MessagingServer.send_message s r c) w) in
  send_calls w s r c
  = Server.CleanupExpiredMessages
    :: (if accepted s r c
        then [ Server.DatetimeNow; Server.SendMessage r (letter w s c);
               Server.NotifyNewMessage r ]
        else [])
  /\ (accepted s r c = false ->
      backend_queues w' = kept w /\ suspended w' = suspended w)
  /\ (accepted s r c = true ->
      let enqueued :=
        answered (Server.SendMessage r (letter w s c))
          (answered Server.DatetimeNow (swept w s)) in
      w' = answered (Server.NotifyNewMessage r) enqueued
      /\ mailbox enqueued r = default [] (kept w !! r) ++ [letter w s c]
      /\ mailbox w' r = default [] (kept w !! r) ++ [letter w s c]
      /\ suspended w' = notify r <$> suspended w).
Proof.
  intros w'. split; [apply send_calls_eq|].
  subst w'. rewrite run_send_message. cbn [snd]. split; intros ->.
  - destruct (swept_facts w s) as (Hq & Hsus & _). auto.
  - destruct (delivered_facts w s r c) as (_ & Hq & Hsus).
    cbn zeta. split; [reflexivity|].
    unfold mailbox. rewrite Hq, mailbox_send_message.
    split; [|split]; try reflexivity; try exact Hsus.
    change (backend_queues (answered (Server.SendMessage r (letter w s c))
              (answered Server.DatetimeNow (swept w s))))
      with (backend_queues (delivered w s r c)).
    by rewrite Hq, mailbox_send_message.
Qed.

Lemma send_message_order_witness :
  (accepted alice bob (lit "hi") = true
   /\ mailbox (snd (run (MessagingServer.send_message alice bob (lit "hi")) boot)) bob
      = default [] (kept boot !! bob) ++ [letter boot alice (lit "hi")])
  /\ (accepted (lit "") bob (lit "hi") = false
      /\ backend_queues
           (snd (run (MessagingServer.send_message (lit "") bob (lit "hi")) stale))
         = kept stale).
Proof.
  assert (Ha : accepted alice bob (lit "hi") = true) by (vm_compute; reflexivity).
  assert (Hr : accepted (lit "") bob (lit "hi") = false) by (vm_compute; reflexivity).
  split; (split; [assumption|]).
  - exact (proj1 (proj2 (proj2
      (proj2 (proj2 (send_message_order boot alice bob (lit "hi"))) Ha)))).
  - exact (proj1
      (proj1 (proj2 (send_message_order stale (lit "") bob (lit "hi"))) Hr)).
Defined.

(** Bob waits in a receive, alice sends: bob's waiter is notified and, once
    resumed, returns alice's message; without a notification it cannot be
    woken. *)
Example woken_receiver_gets_the_message :
  let waiting := steps [Invoke (op_get_messages bob)] boot in
  let sent := steps [Invoke (op_send_message alice bob (lit "hi"))] waiting in
  fst (step (Wake 0) waiting) = None
  /\ fst (step (Wake 0) sent)
     = Some (Returned (markdown (fun _ => lit "just now") bob
                         [letter boot alice (lit "hi")]))
  /\ fst (step (TimeOut 0) waiting) = Some (Returned no_messages).
Proof. vm_compute. repeat split; reflexivity. Qed.

(** *** Sending and waiting *)

Lemma reachable_boot : reachable boot.
Proof. exists 0%Z, (Some [absent; absent]), (fun _ _ => lit "just now"),
         (fun _ => lit "180.0"), []. reflexivity. Qed.

Lemma run_send_message_and_wait_reachable w s r c :
  reachable w ->
  run (MessagingServer.send_message_and_wait s r c) w = sent_and_waiting w s r c.
Proof.
  intros Hw. apply reachable_sound in Hw. destruct Hw as (Hcfg & _).
  rewrite run_send_message_and_wait_any.
  destruct (resolved_well_formed s Hcfg) as (t1 & t2 & -> & _). reflexivity.
Qed.

(** C3, counterexample. With a whitespace-only content,
    [send_message_and_wait] returns without waiting. *)
Lemma empty_content_does_not_wait :
  ~ waits_unless_invalid boot alice bob (lit "  ").
Proof.
  unfold waits_unless_invalid.
  replace (blank alice || blank bob) with false by (vm_compute; reflexivity).
  intros (t & k & w' & Hrun).
  rewrite (run_send_message_and_wait_reachable _ _ _ reachable_boot) in Hrun.
  unfold sent_and_waiting in Hrun.
  replace (accepted alice bob (lit "  ")) with false in Hrun
    by (vm_compute; reflexivity).
  discriminate.
Qed.

(** C3 (corrected). [send_message_and_wait] returns without waiting exactly
    when the inner send reported an error or the empty-content warning, that
    is when sender, recipient or content is empty after trimming; it then
    returns the send's result. For every other input it sends, notifies the
    recipient and suspends on [wait_for_new_message] for the sender, with the
    sender's configured send-and-wait timeout. *)
Theorem send_message_and_wait_gate (w : Process) (s r c : str) :
  reachable w ->
  let timeout := timeout_for w s (lit "send_message_and_wait") in
  (accepted s r c = false ->
   exists w',
     run (MessagingServer.send_message_and_wait s r c) w
     = (Returned (send_result s r c), w')
     /\ journal w'
        = journal w ++ config_calls w s
          ++ [Server.ClientConfigsGet s; Server.CleanupExpiredMessages])
  /\ (accepted s r c = true ->
      exists w',
        run (MessagingServer.send_message_and_wait s r c) w
        = (Suspended s timeout (MessagingServer.reply_after_wait s timeout), w')
        /\ journal w'
           = journal w ++ config_calls w s
             ++ [ Server.ClientConfigsGet s; Server.CleanupExpiredMessages;
                  Server.DatetimeNow;
                  Server.SendMessage r (letter w s c);
                  Server.NotifyNewMessage r;
                  Server.WaitForNewMessage s timeout ]).
Proof.
  intros Hw timeout.
  rewrite (run_send_message_and_wait_reachable _ _ _ Hw). unfold sent_and_waiting.
  fold timeout.
  assert (Hcalls : config_calls (looked_up w s) s = [Server.ClientConfigsGet s]).
  { unfold config_calls. by rewrite looked_up_cached. }
  assert (Hclock : clock (looked_up w s) = clock w)
    by (by destruct (looked_up_backend w s) as (_ & _ & _ & -> & _)).
  split; intros ->.
  - eexists. split; [reflexivity|].
    destruct (swept_facts (looked_up w s) s) as (_ & _ & _ & _ & _ & -> & _).
    rewrite journal_looked_up, Hcalls, <- !app_assoc. reflexivity.
  - eexists. split; [reflexivity|].
    rewrite journal_answered.
    destruct (delivered_facts (looked_up w s) s r c) as (-> & _ & _).
    rewrite journal_looked_up, Hcalls, <- !app_assoc.
    unfold letter. rewrite Hclock. reflexivity.
Qed.

Lemma send_message_and_wait_gate_witness :
  reachable boot
  /\ (accepted alice bob (lit "hi") = true
      /\ exists w',
           run (MessagingServer.send_message_and_wait alice bob (lit "hi")) boot
           = (Suspended alice (JNum 180)
                (MessagingServer.reply_after_wait alice (JNum 180)), w'))
  /\ (accepted alice bob (lit "  ") = false
      /\ exists w',
           run (MessagingServer.send_message_and_wait alice bob (lit "  ")) boot
           = (Returned (lit "⚠️ **Warning**: Sending empty message"), w')).
Proof.
  assert (Ha : accepted alice bob (lit "hi") = true) by (vm_compute; reflexivity).
  assert (Hr : accepted alice bob (lit "  ") = false) by (vm_compute; reflexivity).
  split; [exact reachable_boot|]. split; (split; [assumption|]).
  - destruct (proj2 (send_message_and_wait_gate alice bob (lit "hi") reachable_boot) Ha)
      as (w' & Hrun & _).
    exists w'. exact Hrun.
  - destruct (proj1 (send_message_and_wait_gate alice bob (lit "  ") reachable_boot) Hr)
      as (w' & Hrun & _).
    assert (Hres : send_result alice bob (lit "  ")
                   = lit "⚠️ **Warning**: Sending empty message")
      by (vm_compute; reflexivity).
    rewrite Hres in Hrun. exists w'. exact Hrun.
Defined.

(** *** The outcomes of a wait *)

Lemma collect_empty e c w :
  mailbox w c = [] -> fst (collect e c w) = Returned e.
Proof. intros H. unfold collect. by rewrite H. Qed.

Lemma run_get_messages_boot :
  run (MessagingServer.get_messages bob) boot
  = (Suspended bob (JNum 60) (MessagingServer.messages_after_wait bob),
     answered (Server.WaitForNewMessage bob (JNum 60))
       (answered (Server.GetMessages bob true) (swept boot bob))).
Proof.
  rewrite run_get_messages_any.
  replace (MessagingServer.timeout_of (resolved boot bob) (lit "get_messages"))
    with (Ok (JNum 60)) by (vm_compute; reflexivity).
  unfold received.
  replace (blank bob) with false by (vm_compute; reflexivity).
  replace (mailbox (swept boot bob) bob) with (@nil Message)
    by (vm_compute; reflexivity).
  replace (timeout_for boot bob (lit "get_messages")) with (JNum 60)
    by (vm_compute; reflexivity).
  reflexivity.
Qed.

(** C2, counterexample. A receive that waited returns the same text after a
    timeout and after a notification that found the mailbox empty. *)
Lemma receive_does_not_distinguish :
  ~ distinguishes (MessagingServer.get_messages bob).
Proof.
  intros H.
  apply (H _ _ _ _ _ run_get_messages_boot boot boot).
  - vm_compute. reflexivity.
  - rewrite run_messages_true, run_messages_false.
    rewrite collect_empty by (vm_compute; reflexivity). reflexivity.
Qed.

Lemma timed_out_is_not_no_response shown : timed_out shown <> no_response.
Proof.
  intros H. apply (f_equal (fun s => startswith s (lit "⏰"))) in H.
  vm_compute in H. discriminate.
Qed.

(** C2 (corrected). Whenever [send_message_and_wait] waits, its timeout
    result differs from its result for a notification that found the
    mailbox empty. Whenever [get_messages] waits, both outcomes are the same
    result, the no-messages text. *)
Theorem wait_outcomes (s r c client_id : str) :
  distinguishes (MessagingServer.send_message_and_wait s r c)
  /\ (forall w who timeout k w1,
        run (MessagingServer.get_messages client_id) w
        = (Suspended who timeout k, w1) ->
        forall w2 w3,
          mailbox w3 who = [] ->
          fst (run (k false) w2) = Returned no_messages
          /\ fst (run (k true) w3) = Returned no_messages).
Proof.
  split.
  - intros w who timeout k w1 Hrun w2 w3 Hempty.
    rewrite run_send_message_and_wait_any in Hrun.
    destruct (MessagingServer.timeout_of _ _); [|discriminate].
    unfold sent_and_waiting in Hrun.
    destruct (accepted s r c); [|discriminate].
    injection Hrun as <- <- <- _.
    rewrite run_reply_true, run_reply_false, collect_empty by exact Hempty.
    cbn [fst]. intros H.
    exact (timed_out_is_not_no_response
             (f_equal (fun o => match o with Returned x => x | _ => [] end) H)).
  - intros w who timeout k w1 Hrun w2 w3 Hempty.
    rewrite run_get_messages_any in Hrun.
    destruct (MessagingServer.timeout_of _ _); [|discriminate].
    unfold received in Hrun.
    destruct (blank client_id); [discriminate|].
    destruct (mailbox (swept w client_id) client_id) eqn:E.
    + injection Hrun as <- <- <- _.
      rewrite run_messages_true, run_messages_false, collect_empty by exact Hempty.
      split; reflexivity.
    + unfold collect in Hrun. rewrite E in Hrun. discriminate.
Qed.

Lemma wait_outcomes_witness :
  (exists w1,
     run (MessagingServer.send_message_and_wait alice bob (lit "hi")) boot
     = (Suspended alice (JNum 180)
          (MessagingServer.reply_after_wait alice (JNum 180)), w1))
  /\ mailbox boot alice = []
  /\ fst (run (MessagingServer.reply_after_wait alice (JNum 180) false) boot)
     <> fst (run (MessagingServer.reply_after_wait alice (JNum 180) true) boot)
  /\ fst (run (MessagingServer.messages_after_wait bob false) boot)
     = Returned no_messages
  /\ fst (run (MessagingServer.messages_after_wait bob true) boot)
     = Returned no_messages.
Proof.
  assert (Hs : run (MessagingServer.send_message_and_wait alice bob (lit "hi")) boot
               = sent_and_waiting boot alice bob (lit "hi"))
    by (apply run_send_message_and_wait_reachable, reachable_boot).
  assert (Ha : sent_and_waiting boot alice bob (lit "hi")
               = (Suspended alice (JNum 180)
                    (MessagingServer.reply_after_wait alice (JNum 180)),
                  snd (sent_and_waiting boot alice bob (lit "hi"))))
    by (vm_compute; reflexivity).
  rewrite Ha in Hs.
  assert (He : mailbox boot alice = []) by reflexivity.
  assert (Hb : mailbox boot bob = []) by reflexivity.
  split; [eexists; exact Hs|]. split; [exact He|]. split.
  - exact (proj1 (wait_outcomes alice bob (lit "hi") bob)
             boot alice (JNum 180) _ _ Hs boot boot He).
  - exact (proj2 (wait_outcomes alice bob (lit "hi") bob)
             boot bob (JNum 60) _ _ run_get_messages_boot boot boot Hb).
Defined.

(** *** Receiving *)

Lemma run_get_messages_reachable w c :
  reachable w -> run (MessagingServer.get_messages c) w = received w c.
Proof. intros Hw. apply run_get_messages, reachable_sound, Hw. Qed.

(** C7, counterexample. A receive with an empty client id sweeps and
    returns an error: it neither pops nor waits. *)
Lemma empty_client_id_skips_the_steps :
  ~ follows_receive_steps boot (lit "").
Proof.
  unfold follows_receive_steps.
  replace (mailbox (swept boot (lit "")) (lit "")) with (@nil Message)
    by (vm_compute; reflexivity).
  intros (k & Hrun & _).
  rewrite (run_get_messages_reachable _ reachable_boot) in Hrun.
  unfold received in Hrun.
  replace (blank (lit "")) with true in Hrun by (vm_compute; reflexivity).
  discriminate.
Qed.

(** C7 (corrected). Every receive whose client id is non-empty after
    trimming resolves the client's configuration, sweeps the expired
    messages and pops the client's mailbox; if that is non-empty it returns
    the messages at once; if it is empty it suspends on
    [wait_for_new_message] with the configured receive timeout, and then, on
    a notification, pops once more and returns the messages or the
    no-messages result if the mailbox is still empty, and on a timeout
    returns the no-messages result without popping again. *)
Theorem get_messages_steps (w : Process) (client_id : str) :
  reachable w -> blank client_id = false ->
  follows_receive_steps w client_id.
Proof.
  intros Hw Hb. unfold follows_receive_steps.
  rewrite (run_get_messages_reachable _ Hw). unfold received. rewrite Hb.
  destruct (swept_facts w client_id) as (_ & _ & Hc & _ & Hr & _).
  destruct (mailbox (swept w client_id) client_id) as [|m ms] eqn:E.
  - exists (MessagingServer.messages_after_wait client_id).
    split; [reflexivity|]. split; intros w3.
    + apply run_messages_false.
    + apply run_messages_true.
  - unfold collect. rewrite E, Hc, Hr. reflexivity.
Qed.

Lemma get_messages_steps_witness :
  reachable boot /\ blank bob = false /\ follows_receive_steps boot bob.
Proof.
  assert (Hb : blank bob = false) by (vm_compute; reflexivity).
  split; [exact reachable_boot|]. split; [exact Hb|].
  exact (get_messages_steps bob reachable_boot Hb).
Defined.

(** C10 (confirmed). Called with a client id that is empty or whitespace
    only, [get_messages] returns the validation error result; it neither
    waits nor raises. It does so after the configuration lookup for that id
    (now cached) and after the expiration sweep, whose effect on the
    mailboxes therefore stays. *)
Theorem get_messages_empty_client_id (w : Process) (client_id : str) :
  reachable w -> blank client_id = true ->
  run (MessagingServer.get_messages client_id) w
  = (Returned (lit "❌ **Error**: Client ID cannot be empty"), swept w client_id)
  /\ backend_queues (swept w client_id) = kept w
  /\ self_client_configs (swept w client_id) !! client_id
     = Some (resolved w client_id)
  /\ suspended (swept w client_id) = suspended w
  /\ journal (swept w client_id)
     = journal w ++ config_calls w client_id ++ [Server.CleanupExpiredMessages].
Proof.
  intros Hw Hb.
  rewrite (run_get_messages_reachable _ Hw). unfold received. rewrite Hb.
  destruct (swept_facts w client_id) as (Hq & Hs & _ & _ & _ & Hj & Hc).
  repeat split; assumption.
Qed.

Lemma get_messages_empty_client_id_witness :
  reachable stale /\ blank (lit " ") = true
  /\ mailbox stale bob = [letter boot alice (lit "hi")]
  /\ fst (run (MessagingServer.get_messages (lit " ")) stale)
     = Returned (lit "❌ **Error**: Client ID cannot be empty")
  /\ mailbox (snd (run (MessagingServer.get_messages (lit " ")) stale)) bob = [].
Proof.
  assert (Hr : reachable stale) by (apply reachable_steps, reachable_boot).
  assert (Hb : blank (lit " ") = true) by (vm_compute; reflexivity).
  split; [exact Hr|]. split; [exact Hb|]. split; [vm_compute; reflexivity|].
  destruct (get_messages_empty_client_id (lit " ") Hr Hb) as (Hrun & Hq & _).
  rewrite Hrun. split; [reflexivity|].
  unfold mailbox. cbn [snd]. rewrite Hq. vm_compute. reflexivity.
Defined.

(** *** The configuration cache *)

(** C9 (confirmed). In every state the process can reach and whatever
    happens next, [load_client_config] has been called at most once for a
    client id. The first [get_client_config] for an id calls it once and
    stores the result; from then on, in every later state, even if the files
    changed, [get_client_config] returns the stored configuration without
    calling it. *)
Theorem get_client_config_once (w : Process) (client_id : str) :
  reachable w ->
  (forall acts, (loads client_id (journal (steps acts w)) <= 1)%nat)
  /\ (self_client_configs w !! client_id = None ->
      run (MessagingServer.get_client_config client_id) w
      = (Returned (load_client_config (disk w) client_id), looked_up w client_id)
      /\ self_client_configs (looked_up w client_id) !! client_id
         = Some (load_client_config (disk w) client_id)
      /\ loads client_id (journal (looked_up w client_id)) = 1%nat)
  /\ (forall config,
        self_client_configs w !! client_id = Some config ->
        forall acts,
          let w' := steps acts w in
          run (MessagingServer.get_client_config client_id) w'
          = (Returned config, answered (Server.ClientConfigsGet client_id) w')
          /\ loads client_id (journal (answered (Server.ClientConfigsGet client_id) w'))
             = loads client_id (journal w')).
Proof.
  intros Hw. split; [|split].
  - intros acts.
    pose proof (reachable_sound (reachable_steps acts Hw)) as (_ & Hone & _).
    rewrite (Hone client_id). destruct (_ !! _); lia.
  - intros Hnone.
    pose proof (sound_looked_up client_id (reachable_sound Hw)) as (_ & Hone & _).
    rewrite run_get_client_config. unfold resolved. rewrite Hnone.
    split; [reflexivity|].
    pose proof (looked_up_cached w client_id) as Hc.
    unfold resolved in Hc. rewrite Hnone in Hc.
    split; [exact Hc|]. rewrite (Hone client_id), Hc. reflexivity.
  - intros config Hsome acts w'.
    pose proof (steps_keeps acts (reachable_sound Hw) _ Hsome) as Hkept.
    fold w' in Hkept.
    rewrite run_get_client_config. unfold resolved, looked_up. rewrite Hkept.
    split; [reflexivity|].
    rewrite journal_answered, loads_app. cbn. lia.
Qed.

Lemma get_client_config_once_witness :
  reachable boot
  /\ (loads alice
        (journal (steps [ Invoke (op_send_message alice bob (lit "hi"));
                          WriteDisk None;
                          Invoke (op_send_message_and_wait alice bob (lit "hi"));
                          Invoke (op_get_messages alice) ] boot)) <= 1)%nat
  /\ (self_client_configs boot !! alice = None
      /\ loads alice (journal (looked_up boot alice)) = 1%nat)
  /\ (reachable settled
      /\ self_client_configs settled !! alice = Some DEFAULT_CONFIG
      /\ fst (run (MessagingServer.get_client_config alice)
                (steps [WriteDisk None; Invoke (op_get_messages bob)] settled))
         = Returned DEFAULT_CONFIG).
Proof.
  assert (Hn : self_client_configs boot !! alice = None) by reflexivity.
  assert (Hr : reachable settled) by (apply reachable_steps, reachable_boot).
  assert (Hs : self_client_configs settled !! alice = Some DEFAULT_CONFIG)
    by (vm_compute; reflexivity).
  split; [exact reachable_boot|]. split; [|split].
  - exact (proj1 (get_client_config_once alice reachable_boot) _).
  - split; [exact Hn|].
    exact (proj2 (proj2
      (proj1 (proj2 (get_client_config_once alice reachable_boot)) Hn))).
  - split; [exact Hr|]. split; [exact Hs|].
    rewrite (proj1 (proj2 (proj2 (get_client_config_once alice Hr)) _ Hs
                      [WriteDisk None; Invoke (op_get_messages bob)])).
    reflexivity.
Defined.

(** *** The search for a client configuration *)

Lemma visit_passed_by client_id f :
  passed_by client_id f -> visit client_id f = Ok None.
Proof.
  intros [-> | (d & -> & Hne)]; [reflexivity|].
  cbn [visit]. unfold read_config. cbn [py_get].
  destruct (dict_get (lit "my_id") d) as [v|] eqn:E; cbn [mbind exc_bind].
  - destruct (py_eq_str v client_id) eqn:Heq; [|reflexivity].
    apply py_eq_str_true in Heq. subst v. congruence.
  - reflexivity.
Qed.

Lemma walk_passed_by client_id pre dirs :
  Forall (passed_by client_id) pre -> dirs <> [] ->
  walk client_id (pre ++ dirs) = walk client_id dirs.
Proof.
  intros Hpre Hne. induction Hpre as [|f pre Hf Hpre IH]; [reflexivity|].
  cbn [app]. destruct (pre ++ dirs) as [|g rest] eqn:E.
  - destruct pre; [cbn in E; congruence|discriminate].
  - cbn [walk]. rewrite (visit_passed_by Hf). exact IH.
Qed.

Lemma py_get_obj d key default :
  py_get (JObj d) key default = Ok (dict_get_default key d default).
Proof. unfold py_get, dict_get_default. by destruct (dict_get key d). Qed.

Lemma str_eqb_refl a : str_eqb a a = true.
Proof. unfold str_eqb. by rewrite bool_decide_eq_true_2. Qed.

Lemma visit_breaks_search client_id f :
  breaks_search client_id f -> visit client_id f = Raised.
Proof.
  intros [-> | [(v & -> & Hv) | (d & mc & -> & Hid & Hmc & Hbad)]].
  - reflexivity.
  - destruct v; try discriminate; reflexivity.
  - cbn [visit]. unfold read_config. cbn [py_get]. rewrite Hid.
    cbn [mbind exc_bind py_eq_str]. rewrite str_eqb_refl. rewrite Hmc.
    cbn [mbind exc_bind].
    destruct Hbad as [Hmc' | (dm & t & -> & Ht & Hobj)].
    + destruct mc; try discriminate; reflexivity.
    + cbn [py_get]. rewrite Ht.
      destruct (dict_get (lit "max_tokens") dm), (dict_get (lit "max_iterations") dm);
        cbn [mbind exc_bind]; destruct t; try discriminate; reflexivity.
Qed.

Lemma visit_matching client_id d :
  dict_get (lit "my_id") d = Some (JStr client_id) ->
  visit client_id (parsed (JObj d)) <> Ok None.
Proof.
  intros Hid. cbn [visit]. unfold read_config. cbn [py_get]. rewrite Hid.
  cbn [mbind exc_bind py_eq_str]. rewrite str_eqb_refl.
  destruct (dict_get (lit "message_config") d) as [mc|]; cbn [mbind exc_bind].
  - destruct mc as [| | | | |dm]; try discriminate. cbn [py_get].
    destruct (dict_get (lit "max_tokens") dm), (dict_get (lit "max_iterations") dm),
      (dict_get (lit "timeouts") dm) as [[]|]; discriminate.
  - discriminate.
Qed.

(** X1. The nearest configuration decides: when every directory below holds
    no file or an object with another [my_id], the first file whose
    [my_id] is the client's gives the result, whatever the directories
    above it hold. *)
Theorem load_client_config_nearest (client_id : str) (pre : list ConfigFile)
    (d : dict) (rest : list ConfigFile) :
  Forall (passed_by client_id) pre -> rest <> [] ->
  dict_get (lit "my_id") d = Some (JStr client_id) ->
  load_client_config (Some (pre ++ parsed (JObj d) :: rest)) client_id
  = load_client_config (Some [parsed (JObj d); absent]) client_id.
Proof.
  intros Hpre Hrest Hid. unfold load_client_config, try_load.
  rewrite walk_passed_by by (assumption || discriminate).
  destruct rest as [|g rest]; [congruence|].
  cbn [walk]. pose proof (visit_matching _ Hid) as Hv.
  destruct (visit client_id (parsed (JObj d))) as [[c|]|];
    cbn [mbind exc_bind]; congruence.
Qed.

(** X2. The root directory is never searched: the result does not depend on
    what the last directory of the chain holds. *)
Theorem load_client_config_ignores_root (client_id : str) (dirs : list ConfigFile)
    (root root' : ConfigFile) :
  load_client_config (Some (dirs ++ [root])) client_id
  = load_client_config (Some (dirs ++ [root'])) client_id.
Proof.
  unfold load_client_config, try_load.
  assert (H : walk client_id (dirs ++ [root]) = walk client_id (dirs ++ [root'])).
  { induction dirs as [|f dirs IH]; [reflexivity|].
    cbn [app]. destruct dirs as [|g dirs].
    - reflexivity.
    - cbn [app walk] in *. destruct (visit client_id f) as [[c|]|];
        cbn [mbind exc_bind]; try reflexivity. exact IH. }
  by rewrite H.
Qed.

(** X3. An error in a nearer directory hides every farther configuration:
    when the first file that is not passed by cannot be read, does not hold
    an object, or is the client's with a [message_config] or [timeouts]
    that is not an object, the result is [DEFAULT_CONFIG], even if a
    directory above holds a valid configuration of the client. *)
Theorem load_client_config_error_hides (client_id : str) (pre : list ConfigFile)
    (f : ConfigFile) (rest : list ConfigFile) :
  Forall (passed_by client_id) pre -> rest <> [] ->
  breaks_search client_id f ->
  load_client_config (Some (pre ++ f :: rest)) client_id = DEFAULT_CONFIG.
Proof.
  intros Hpre Hrest Hf. unfold load_client_config, try_load.
  rewrite walk_passed_by by (assumption || discriminate).
  destruct rest as [|g rest]; [congruence|].
  cbn [walk]. rewrite (visit_breaks_search Hf). reflexivity.
Qed.

(** X4. The configuration of a matching file: [max_tokens] and
    [max_iterations] are the file's or else the defaults, and the timeouts
    are merged key by key, a timeout of the file winning over the default
    of the same name and every other default staying. *)
Theorem load_client_config_overrides (client_id : str) (d dm dt : dict) (name : str) :
  dict_get (lit "my_id") d = Some (JStr client_id) ->
  dict_get_default (lit "message_config") d (JObj []) = JObj dm ->
  dict_get_default (lit "timeouts") dm (JObj []) = JObj dt ->
  let config := load_client_config (Some [parsed (JObj d); absent]) client_id in
  config
  = JObj [ (lit "max_tokens", dict_get_default (lit "max_tokens") dm (JNum 4096));
           (lit "max_iterations", dict_get_default (lit "max_iterations") dm (JNum 10));
           (lit "timeouts", JObj (DEFAULT_TIMEOUTS ++ dt)) ]
  /\ MessagingServer.timeout_of config name
     = match dict_get name dt with
       | Some v => Ok v
       | None => MessagingServer.timeout_of DEFAULT_CONFIG name
       end.
Proof.
  intros Hid Hmc Ht config.
  assert (Hc : config
    = JObj [ (lit "max_tokens", dict_get_default (lit "max_tokens") dm (JNum 4096));
             (lit "max_iterations", dict_get_default (lit "max_iterations") dm (JNum 10));
             (lit "timeouts", JObj (DEFAULT_TIMEOUTS ++ dt)) ]).
  { subst config. unfold load_client_config, try_load. cbn [walk visit].
    unfold read_config. rewrite !py_get_obj.
    assert (E : dict_get_default (lit "my_id") d JNull = JStr client_id)
      by (unfold dict_get_default; by rewrite Hid).
    rewrite E.
    cbn [mbind exc_bind py_eq_str]. rewrite str_eqb_refl, Hmc.
    cbn [mbind exc_bind]. rewrite !py_get_obj. cbn [mbind exc_bind].
    rewrite Ht. reflexivity. }
  split; [exact Hc|]. rewrite Hc.
  unfold MessagingServer.timeout_of.
  replace (py_getitem (JObj [ (lit "max_tokens", dict_get_default (lit "max_tokens") dm (JNum 4096));
             (lit "max_iterations", dict_get_default (lit "max_iterations") dm (JNum 10));
             (lit "timeouts", JObj (DEFAULT_TIMEOUTS ++ dt)) ]) (lit "timeouts"))
    with (Ok (JObj (DEFAULT_TIMEOUTS ++ dt))) by (vm_compute; reflexivity).
  replace (py_getitem DEFAULT_CONFIG (lit "timeouts"))
    with (Ok (JObj DEFAULT_TIMEOUTS)) by (vm_compute; reflexivity).
  cbn [mbind exc_bind py_getitem]. rewrite dict_get_app.
  destruct (dict_get name dt); reflexivity.
Qed.

Lemma load_client_config_nearest_witness :
  Forall (passed_by alice) [absent; parsed (JObj [(lit "my_id", JStr bob)])]
  /\ [parsed (JObj [(lit "my_id", JStr alice)]); absent] <> []
  /\ dict_get (lit "my_id")
       [ (lit "my_id", JStr alice);
         (lit "message_config", JObj [(lit "max_tokens", JNum 1)]) ]
     = Some (JStr alice)
  /\ load_client_config
       (Some ([absent; parsed (JObj [(lit "my_id", JStr bob)])]
              ++ parsed (JObj [ (lit "my_id", JStr alice);
                                (lit "message_config",
                                 JObj [(lit "max_tokens", JNum 1)]) ])
              :: [parsed (JObj [(lit "my_id", JStr alice)]); absent]))
       alice
     = load_client_config
         (Some [ parsed (JObj [ (lit "my_id", JStr alice);
                                (lit "message_config",
                                 JObj [(lit "max_tokens", JNum 1)]) ]);
                 absent ])
         alice.
Proof.
  assert (Hpre : Forall (passed_by alice)
                   [absent; parsed (JObj [(lit "my_id", JStr bob)])]).
  { apply Forall_cons; split; [by left|].
    apply Forall_cons; split; [|apply Forall_nil; exact I].
    right. exists [(lit "my_id", JStr bob)]. split; [reflexivity|].
    vm_compute. discriminate. }
  assert (Hrest : [parsed (JObj [(lit "my_id", JStr alice)]); absent] <> [])
    by discriminate.
  assert (Hid : dict_get (lit "my_id")
                  [ (lit "my_id", JStr alice);
                    (lit "message_config", JObj [(lit "max_tokens", JNum 1)]) ]
                = Some (JStr alice))
    by (vm_compute; reflexivity).
  split; [exact Hpre|]. split; [exact Hrest|]. split; [exact Hid|].
  exact (@load_client_config_nearest alice _ _ _ Hpre Hrest Hid).
Defined.

Lemma load_client_config_error_hides_witness :
  Forall (passed_by alice) [absent]
  /\ [parsed (JObj [(lit "my_id", JStr alice)]); absent] <> []
  /\ breaks_search alice (parsed (JArr []))
  /\ load_client_config
       (Some ([absent] ++ parsed (JArr [])
              :: [parsed (JObj [(lit "my_id", JStr alice)]); absent]))
       alice
     = DEFAULT_CONFIG.
Proof.
  assert (Hpre : Forall (passed_by alice) [absent])
    by (apply Forall_cons; split; [by left|by apply Forall_nil]).
  assert (Hrest : [parsed (JObj [(lit "my_id", JStr alice)]); absent] <> [])
    by discriminate.
  assert (Hf : breaks_search alice (parsed (JArr [])))
    by (right; left; by exists (JArr [])).
  split; [exact Hpre|]. split; [exact Hrest|]. split; [exact Hf|].
  exact (@load_client_config_error_hides alice _ _ _ Hpre Hrest Hf).
Defined.

Lemma load_client_config_overrides_witness :
  let d := [ (lit "my_id", JStr alice);
             (lit "message_config",
              JObj [(lit "timeouts", JObj [(lit "get_messages", JNum 5)])]) ] in
  dict_get (lit "my_id") d = Some (JStr alice)
  /\ MessagingServer.timeout_of
       (load_client_config (Some [parsed (JObj d); absent]) alice)
       (lit "get_messages")
     = Ok (JNum 5)
  /\ MessagingServer.timeout_of
       (load_client_config (Some [parsed (JObj d); absent]) alice)
       (lit "send_message_and_wait")
     = Ok (JNum 180).
Proof.
  intros d.
  assert (Hid : dict_get (lit "my_id") d = Some (JStr alice))
    by (vm_compute; reflexivity).
  assert (Hmc : dict_get_default (lit "message_config") d (JObj [])
                = JObj [(lit "timeouts", JObj [(lit "get_messages", JNum 5)])])
    by (vm_compute; reflexivity).
  assert (Ht : dict_get_default (lit "timeouts")
                 [(lit "timeouts", JObj [(lit "get_messages", JNum 5)])] (JObj [])
               = JObj [(lit "get_messages", JNum 5)])
    by (vm_compute; reflexivity).
  split; [exact Hid|]. split.
  - rewrite (proj2 (@load_client_config_overrides alice d _ _ (lit "get_messages")
                      Hid Hmc Ht)).
    vm_compute. reflexivity.
  - rewrite (proj2 (@load_client_config_overrides alice d _ _
                      (lit "send_message_and_wait") Hid Hmc Ht)).
    vm_compute. reflexivity.
Defined.

(** *** The callbacks of the configuration files *)

Lemma key_eqb_sym a b : key_eqb a b = key_eqb b a.
Proof.
  assert (Hq : forall p q, Qeq_bool p q = Qeq_bool q p).
  { intros p q. destruct (Qeq_bool p q) eqn:E1, (Qeq_bool q p) eqn:E2; try reflexivity.
    - apply Qeq_bool_iff in E1. symmetry in E1. apply Qeq_bool_iff in E1. congruence.
    - apply Qeq_bool_iff in E2. symmetry in E2. apply Qeq_bool_iff in E2. congruence. }
  destruct a, b; cbn; try reflexivity; try apply Hq.
  unfold str_eqb. apply bool_decide_ext. split; congruence.
Qed.

Lemma key_eqb_refl a : hashable a = true -> key_eqb a a = true.
Proof.
  destruct a; cbn; try discriminate; intros _; try reflexivity.
  - destruct b; reflexivity.
  - apply Qeq_bool_iff. reflexivity.
  - apply str_eqb_refl.
Qed.

Lemma key_eqb_str u y : key_eqb (JStr u) y = true -> y = JStr u.
Proof.
  destruct y; cbn; try discriminate. intros H. apply str_eqb_eq in H. by subst.
Qed.

Lemma distinct_keys_nil : distinct_keys [].
Proof. intros i j x y H. by rewrite lookup_nil in H. Qed.

Lemma existsb_false_elem {A} (f : A -> bool) l x :
  existsb f l = false -> x ∈ l -> f x = false.
Proof.
  intros H Hin. destruct (f x) eqn:E; [|reflexivity].
  assert (existsb f l = true); [|congruence].
  apply existsb_exists. exists x. split; [|exact E]. by apply list_elem_of_In.
Qed.

Lemma distinct_keys_snoc keys x :
  distinct_keys keys -> existsb (key_eqb x) keys = false ->
  distinct_keys (keys ++ [x]).
Proof.
  intros Hd Hx i j a b Hi Hj Hab.
  apply lookup_app_Some in Hi as [Hi | [Hil Hi]];
  apply lookup_app_Some in Hj as [Hj | [Hjl Hj]].
  - by apply (Hd i j a b).
  - apply list_lookup_singleton_Some in Hj as [_ <-].
    apply list_elem_of_lookup_2 in Hi.
    pose proof (existsb_false_elem _ Hx Hi) as Hf. cbn in Hf.
    rewrite key_eqb_sym in Hf. congruence.
  - apply list_lookup_singleton_Some in Hi as [_ <-].
    apply list_elem_of_lookup_2 in Hj.
    pose proof (existsb_false_elem _ Hx Hj) as Hf. cbn in Hf. congruence.
  - apply list_lookup_singleton_Some in Hi as [Hi _].
    apply list_lookup_singleton_Some in Hj as [Hj _]. lia.
Qed.

Lemma fromkeys_app xs ys keys :
  fromkeys (xs ++ ys) keys = fromkeys xs keys ≫= fromkeys ys.
Proof.
  revert keys. induction xs as [|x xs IH]; intros keys; [reflexivity|].
  cbn [app fromkeys]. destruct (hashable x); [apply IH|reflexivity].
Qed.

Lemma fromkeys_ok items : forall keys r,
  fromkeys items keys = Ok r ->
  keys `prefix_of` r
  /\ (distinct_keys keys -> distinct_keys r)
  /\ (forall y, y ∈ r -> y ∈ keys \/ y ∈ items)
  /\ (forall x, x ∈ items -> hashable x = true /\ exists y, y ∈ r /\ key_eqb x y = true).
Proof.
  induction items as [|x items IH]; intros keys r H.
  - cbn in H. injection H as <-. split; [reflexivity|]. split; [tauto|].
    split; [tauto|]. intros x Hx. by apply elem_of_nil in Hx.
  - cbn [fromkeys] in H. destruct (hashable x) eqn:Hh; [|discriminate].
    destruct (existsb (key_eqb x) keys) eqn:Hx.
    + destruct (IH _ _ H) as (Hp & Hd & Hin & Hcov).
      split; [exact Hp|]. split; [exact Hd|]. split.
      * intros y Hy. destruct (Hin y Hy) as [?|?]; [by left|right; by right].
      * intros z Hz. apply elem_of_cons in Hz as [-> | Hz]; [|by apply Hcov].
        split; [exact Hh|]. apply existsb_exists in Hx as (y & Hy & Hxy).
        exists y. split; [|exact Hxy]. destruct Hp as [t ->].
        apply elem_of_app. left. by apply list_elem_of_In.
    + destruct (IH _ _ H) as (Hp & Hd & Hin & Hcov).
      split; [etrans; [|exact Hp]; by apply prefix_app_r|]. split.
      * intros Hk. apply Hd. by apply distinct_keys_snoc.
      * split.
        -- intros y Hy. destruct (Hin y Hy) as [Hy'|Hy'].
           ++ apply elem_of_app in Hy' as [?|Hy']; [by left|].
              apply list_elem_of_singleton in Hy' as ->. right; by left.
           ++ right; by right.
        -- intros z Hz. apply elem_of_cons in Hz as [-> | Hz]; [|by apply Hcov].
           split; [exact Hh|]. exists x. split; [|by apply key_eqb_refl].
           destruct Hp as [t ->]. apply elem_of_app. left.
           apply elem_of_app. right. by left.
Qed.

Lemma fromkeys_raised items : forall keys,
  fromkeys items keys = Raised <-> exists x, x ∈ items /\ hashable x = false.
Proof.
  induction items as [|x items IH]; intros keys.
  - cbn. split; [discriminate|]. intros (x & Hx & _). by apply elem_of_nil in Hx.
  - cbn [fromkeys]. destruct (hashable x) eqn:Hh.
    + rewrite IH. split.
      * intros (y & Hy & Hn). exists y. split; [by right|exact Hn].
      * intros (y & Hy & Hn). apply elem_of_cons in Hy as [-> | Hy]; [congruence|].
        by exists y.
    + split; [|reflexivity]. intros _. exists x. split; [by left|exact Hh].
Qed.

Lemma add_callbacks_obj dc event urls :
  add_callbacks (JObj dc) event urls = Ok (urls ++ entries event dc).
Proof.
  unfold add_callbacks, entries. cbn [py_contains py_getitem mbind exc_bind].
  destruct (dict_get event dc) as [v|] eqn:E.
  - rewrite bool_decide_eq_true_2 by eauto. cbn [mbind exc_bind].
    destruct v; reflexivity.
  - rewrite bool_decide_eq_false_2 by (intros [? ?]; discriminate).
    by rewrite app_nil_r.
Qed.

Lemma add_callbacks_other v event urls :
  is_object v = false ->
  add_callbacks v event urls = Raised \/ add_callbacks v event urls = Ok urls.
Proof.
  intros Hv. unfold add_callbacks.
  destruct v; try discriminate; cbn [py_contains mbind exc_bind]; try (by left).
  - destruct (contains_str s event); [by left|by right].
  - destruct (existsb (fun x => py_eq_str x event) items); [by left|by right].
Qed.

Lemma load_file_given f callbacks :
  load_file f callbacks
  = {| connect := connect callbacks ++ given (lit "connect") f;
       disconnect := disconnect callbacks ++ given (lit "disconnect") f |}.
Proof.
  assert (Hsame : callbacks
                  = {| connect := connect callbacks ++ [];
                       disconnect := disconnect callbacks ++ [] |})
    by (rewrite !app_nil_r; by destruct callbacks).
  unfold given.
  destruct f as [| |config]; try exact Hsame.
  destruct config as [| | | | |d]; try exact Hsame.
  cbn [load_file py_get callbacks_of].
  destruct (dict_get (lit "callbacks") d) as [v|] eqn:E.
  - destruct (is_object v) eqn:Hv.
    + destruct v; try discriminate. by rewrite !add_callbacks_obj.
    + assert (Hnone : match v with JObj dc => Some dc | _ => None end = None)
        by (destruct v; try reflexivity; discriminate).
      rewrite Hnone.
      destruct (add_callbacks_other v (lit "connect") (connect callbacks) Hv) as [-> | ->];
        [exact Hsame|].
      destruct (add_callbacks_other v (lit "disconnect") (disconnect callbacks) Hv)
        as [-> | ->]; rewrite <- Hsame; by destruct callbacks.
  - rewrite !add_callbacks_obj. reflexivity.
Qed.

Lemma fold_load_file fs callbacks :
  fold_left (fun callbacks f => load_file f callbacks) fs callbacks
  = {| connect := connect callbacks ++ collected (lit "connect") fs;
       disconnect := disconnect callbacks ++ collected (lit "disconnect") fs |}.
Proof.
  revert callbacks. induction fs as [|f fs IH]; intros callbacks.
  - cbn. rewrite !app_nil_r. by destruct callbacks.
  - cbn [fold_left]. rewrite IH, load_file_given. cbn [connect disconnect].
    unfold collected. cbn [List.map concat]. by rewrite <- !app_assoc.
Qed.

(** X5. The scan hears exactly the files that hold an object whose
    [callbacks] is an object; each gives, per event, the elements of a list
    or the single value, in the order of the scan. A file that cannot be
    read, that holds no object, or whose [callbacks] is a string, a list, a
    number, a boolean or [null] adds nothing and does not stop the scan. *)
Theorem scan_files_collects (fs : list ConfigFile) :
  scan_files (Some fs)
  = {| connect := collected (lit "connect") fs;
       disconnect := collected (lit "disconnect") fs |}.
Proof. unfold scan_files. by rewrite fold_load_file. Qed.

Lemma elem_of_collected event fs x :
  x ∈ collected event fs <-> exists f, f ∈ fs /\ x ∈ given event f.
Proof.
  unfold collected. rewrite list_elem_of_In, in_concat. split.
  - intros (l & Hl & Hx). apply in_map_iff in Hl as (f & <- & Hf).
    exists f. by rewrite !list_elem_of_In.
  - intros (f & Hf & Hx). exists (given event f).
    split; [apply in_map|]; by apply list_elem_of_In.
Qed.

(** X6. When [load_callbacks_from_config] returns, neither list holds two
    entries that are equal as dictionary keys, and a URL string is in a
    list exactly when some file gives it for that event. *)
Theorem load_callbacks_from_config_result (fs : list ConfigFile) (r : CallbackLists) :
  load_callbacks_from_config (Some fs) = Ok r ->
  distinct_keys (connect r) /\ distinct_keys (disconnect r)
  /\ (forall u, JStr u ∈ connect r
                <-> exists f, f ∈ fs /\ JStr u ∈ given (lit "connect") f)
  /\ (forall u, JStr u ∈ disconnect r
                <-> exists f, f ∈ fs /\ JStr u ∈ given (lit "disconnect") f).
Proof.
  unfold load_callbacks_from_config, scan_files. rewrite fold_load_file.
  cbn [connect disconnect app].
  cbn [connect disconnect].
  destruct (fromkeys (collected (lit "connect") fs) []) as [c|] eqn:Ec;
    [|discriminate].
  destruct (fromkeys (collected (lit "disconnect") fs) []) as [d|] eqn:Ed;
    [|discriminate].
  cbn [mbind exc_bind]. intros [= <-]. cbn [connect disconnect].
  destruct (fromkeys_ok _ _ Ec) as (_ & Hdc & Hinc & Hcovc).
  destruct (fromkeys_ok _ _ Ed) as (_ & Hdd & Hind & Hcovd).
  split; [apply Hdc, distinct_keys_nil|]. split; [apply Hdd, distinct_keys_nil|].
  split; intros u; rewrite <- elem_of_collected; split.
  - intros H. destruct (Hinc _ H) as [H'|H']; [by apply elem_of_nil in H'|exact H'].
  - intros H. destruct (Hcovc _ H) as (_ & y & Hy & Hk).
    apply key_eqb_str in Hk. by subst.
  - intros H. destruct (Hind _ H) as [H'|H']; [by apply elem_of_nil in H'|exact H'].
  - intros H. destruct (Hcovd _ H) as (_ & y & Hy & Hk).
    apply key_eqb_str in Hk. by subst.
Qed.

(** X7. [load_callbacks_from_config] raises exactly when some file gives an
    entry that is a list or an object: the removal of duplicates hashes the
    entries outside of the [try] blocks. *)
Theorem load_callbacks_from_config_raises (fs : list ConfigFile) :
  load_callbacks_from_config (Some fs) = Raised
  <-> exists f x, f ∈ fs
        /\ (x ∈ given (lit "connect") f \/ x ∈ given (lit "disconnect") f)
        /\ hashable x = false.
Proof.
  unfold load_callbacks_from_config, scan_files. rewrite fold_load_file.
  cbn [connect disconnect app].
  cbn [connect disconnect]. split.
  - destruct (fromkeys (collected (lit "connect") fs) []) as [c|] eqn:Ec.
    + destruct (fromkeys (collected (lit "disconnect") fs) []) as [d|] eqn:Ed;
        [discriminate|].
      intros _. apply fromkeys_raised in Ed as (x & Hx & Hh).
      apply elem_of_collected in Hx as (f & Hf & Hx). exists f, x. tauto.
    + intros _. apply fromkeys_raised in Ec as (x & Hx & Hh).
      apply elem_of_collected in Hx as (f & Hf & Hx). exists f, x. tauto.
  - intros (f & x & Hf & [Hx|Hx] & Hh).
    + assert (E : fromkeys (collected (lit "connect") fs) [] = Raised).
      { apply fromkeys_raised. exists x. split; [|exact Hh].
        apply elem_of_collected. by exists f. }
      by rewrite E.
    + assert (E : fromkeys (collected (lit "disconnect") fs) [] = Raised).
      { apply fromkeys_raised. exists x. split; [|exact Hh].
        apply elem_of_collected. by exists f. }
      rewrite E. by destruct (fromkeys (collected (lit "connect") fs) []).
Qed.

Lemma collected_app event fs gs :
  collected event (fs ++ gs) = collected event fs ++ collected event gs.
Proof. unfold collected. by rewrite map_app, concat_app. Qed.

Lemma fromkeys_prefix xs ys r :
  fromkeys (xs ++ ys) [] = Ok r ->
  exists r1, fromkeys xs [] = Ok r1 /\ r1 `prefix_of` r.
Proof.
  rewrite fromkeys_app. destruct (fromkeys xs []) as [r1|]; [|discriminate].
  cbn [mbind exc_bind]. intros H. exists r1. split; [reflexivity|].
  by destruct (fromkeys_ok _ _ H) as (Hp & _).
Qed.

(** X8. Files scanned later only append: the callbacks loaded from the files
    scanned first are a prefix of the callbacks loaded from all files, so
    the first occurrence of a URL fixes its place. *)
Theorem load_callbacks_from_config_appends (fs gs : list ConfigFile)
    (r : CallbackLists) :
  load_callbacks_from_config (Some (fs ++ gs)) = Ok r ->
  exists r1,
    load_callbacks_from_config (Some fs) = Ok r1
    /\ connect r1 `prefix_of` connect r
    /\ disconnect r1 `prefix_of` disconnect r.
Proof.
  unfold load_callbacks_from_config, scan_files. rewrite !fold_load_file.
  cbn [connect disconnect app].
  cbn [connect disconnect]. rewrite !collected_app.
  destruct (fromkeys (collected (lit "connect") fs ++ collected (lit "connect") gs) [])
    as [c|] eqn:Ec; [|discriminate].
  destruct (fromkeys (collected (lit "disconnect") fs
                      ++ collected (lit "disconnect") gs) [])
    as [d|] eqn:Ed; [|discriminate].
  cbn [mbind exc_bind]. intros [= <-].
  apply fromkeys_prefix in Ec as (c1 & -> & Hc).
  apply fromkeys_prefix in Ed as (d1 & -> & Hd).
  cbn [mbind exc_bind]. eexists. split; [reflexivity|]. by split.
Qed.

Lemma load_callbacks_from_config_result_witness :
  load_callbacks_from_config (Some recipients_files)
  = Ok {| connect := [JStr hook; JStr (lit "http://localhost:9001/hook")];
          disconnect := [JStr hook] |}
  /\ distinct_keys [JStr hook; JStr (lit "http://localhost:9001/hook")].
Proof.
  assert (H : load_callbacks_from_config (Some recipients_files)
              = Ok {| connect := [JStr hook; JStr (lit "http://localhost:9001/hook")];
                      disconnect := [JStr hook] |})
    by (vm_compute; reflexivity).
  split; [exact H|].
  exact (proj1 (@load_callbacks_from_config_result recipients_files _ H)).
Defined.

Lemma load_callbacks_from_config_raises_witness :
  (exists f x, f ∈ [nested_file]
     /\ (x ∈ given (lit "connect") f \/ x ∈ given (lit "disconnect") f)
     /\ hashable x = false)
  /\ load_callbacks_from_config (Some [nested_file]) = Raised.
Proof.
  assert (H : exists f x, f ∈ [nested_file]
                /\ (x ∈ given (lit "connect") f \/ x ∈ given (lit "disconnect") f)
                /\ hashable x = false).
  { exists nested_file, (JArr []). split; [by left|]. split; [|reflexivity].
    left. replace (given (lit "connect") nested_file) with [JArr []]
      by (vm_compute; reflexivity).
    by left. }
  split; [exact H|].
  exact (proj2 (load_callbacks_from_config_raises [nested_file]) H).
Defined.

Lemma load_callbacks_from_config_appends_witness :
  load_callbacks_from_config (Some (firstn 1 recipients_files ++ skipn 1 recipients_files))
  = Ok {| connect := [JStr hook; JStr (lit "http://localhost:9001/hook")];
          disconnect := [JStr hook] |}
  /\ exists r1,
       load_callbacks_from_config (Some (firstn 1 recipients_files)) = Ok r1
       /\ connect r1 `prefix_of` [JStr hook; JStr (lit "http://localhost:9001/hook")]
       /\ disconnect r1 `prefix_of` [JStr hook].
Proof.
  assert (H : load_callbacks_from_config
                (Some (firstn 1 recipients_files ++ skipn 1 recipients_files))
              = Ok {| connect := [JStr hook; JStr (lit "http://localhost:9001/hook")];
                      disconnect := [JStr hook] |})
    by (vm_compute; reflexivity).
  split; [exact H|].
  exact (@load_callbacks_from_config_appends _ _ _ H).
Defined.

(** *** Deliveries, attempt by attempt *)

(** X9. Every run of [fire_single_callback], by the first attempt that
    succeeds: it returns normally in all cases; it posts once, twice or
    three times, sleeping 1 s before the second and 2 s before the third
    attempt, and never sleeps after the last one (the 4 s delay is never
    used); it logs one warning per failed attempt, then the success or,
    after three failures, the error. *)
Theorem fire_single_callback_outcomes (net : Net) (url : JSON) (payload : JSON)
    (event_type : str) :
  let r := deliver net 0 (fire_single_callback url payload event_type) in
  fst r = Ok tt
  /\ wire (snd r)
     = (if negb (failed (net url 0%nat)) then
          [ Delivery.Post url payload 5 ]
        else if negb (failed (net url 1%nat)) then
          [ Delivery.Post url payload 5; Delivery.Sleep 1;
            Delivery.Post url payload 5 ]
        else
          [ Delivery.Post url payload 5; Delivery.Sleep 1;
            Delivery.Post url payload 5; Delivery.Sleep 2;
            Delivery.Post url payload 5 ])
  /\ levels (snd r)
     = (if negb (failed (net url 0%nat)) then [INFO]
        else if negb (failed (net url 1%nat)) then [WARNING; INFO]
        else if negb (failed (net url 2%nat)) then [WARNING; WARNING; INFO]
        else [WARNING; WARNING; WARNING; ERROR]).
Proof.
  unfold fire_single_callback. cbn -[lit decimal].
  destruct (net url 0%nat) as [c0| |m0]; cbn -[lit decimal];
    [destruct (is_success c0); cbn -[lit decimal];
       [repeat split; reflexivity|] |..];
  (destruct (net url 1%nat) as [c1| |m1]; cbn -[lit decimal];
    [destruct (is_success c1); cbn -[lit decimal];
       [repeat split; reflexivity|] |..]);
  (destruct (net url 2%nat) as [c2| |m2]; cbn -[lit decimal];
    [destruct (is_success c2); cbn -[lit decimal] |..]);
  repeat split; reflexivity.
Qed.

Lemma deliver_retry_loop_ext net net' url payload event_type attempts n :
  (forall k, net url k = net' url k) ->
  deliver net n (retry_loop url payload event_type attempts)
  = deliver net' n (retry_loop url payload event_type attempts).
Proof.
  intros Hagree. revert n. induction attempts as [|a attempts IH]; intros n.
  - reflexivity.
  - cbn -[lit decimal]. rewrite <- Hagree.
    destruct (net url n) as [c| |m]; cbn -[lit decimal];
      [destruct (is_success c); cbn -[lit decimal]; [reflexivity|] |..];
      unfold wait_before_retry;
      (destruct (a <? max_retries - 1)%nat; cbn -[lit decimal];
       [destruct (index retry_delays a); cbn -[lit decimal]; [|reflexivity]|]);
      rewrite IH; reflexivity.
Qed.

(** X10. A delivery talks to its own endpoint only: what the other endpoints
    answer has no effect on its requests, its sleeps and its log. *)
Theorem fire_single_callback_isolated (net net' : Net) (url : JSON) (payload : JSON)
    (event_type : str) :
  (forall k, net url k = net' url k) ->
  deliver net 0 (fire_single_callback url payload event_type)
  = deliver net' 0 (fire_single_callback url payload event_type).
Proof. intros H. by apply deliver_retry_loop_ext. Qed.

Lemma fire_single_callback_isolated_witness :
  (forall k, broken (JStr hook) k
             = (fun u n => match u with
                           | JStr _ => Response 500
                           | _ => Response 200
                           end) (JStr hook) k)
  /\ deliver broken 0 (fire_single_callback (JStr hook) JNull (lit "connect"))
     = deliver (fun u n => match u with
                           | JStr _ => Response 500
                           | _ => Response 200
                           end)
         0 (fire_single_callback (JStr hook) JNull (lit "connect")).
Proof.
  assert (H : forall k, broken (JStr hook) k
                = (fun u n => match u with
                              | JStr _ => Response 500
                              | _ => Response 200
                              end) (JStr hook) k).
  { intros k. reflexivity. }
  split; [exact H|].
  exact (fire_single_callback_isolated broken _ (JStr hook) JNull (lit "connect") H).
Defined.

(** X11. When the callbacks load and hold no entry for the event (also for
    an event type other than [connect] and [disconnect]), [fire_callbacks]
    logs at debug level and returns: no task is created, nothing is
    awaited. When the load raises, [fire_callbacks] raises before that
    log line, whatever the event. *)
Theorem fire_callbacks_without_subscribers (files : option (list ConfigFile))
    (net : Net) (event_type : str) (payload : JSON) :
  (forall callbacks,
     load_callbacks_from_config files = Ok callbacks ->
     Emit.get callbacks event_type = []) ->
  emit (fire_callbacks event_type payload) (idle files net)
  = match load_callbacks_from_config files with
    | Ok _ =>
      (Ok tt,
       {| configured := files; endpoints := net; created := []; completed := [];
          emitted := [ Emit.LoadCallbacksFromConfig;
                       Emit.Log DEBUG
                         (lit "No callbacks configured for event: "
                          ++ event_type) ] |})
    | Raised =>
      (Raised,
       {| configured := files; endpoints := net; created := []; completed := [];
          emitted := [Emit.LoadCallbacksFromConfig] |})
    end.
Proof.
  intros H. rewrite emit_fire_callbacks.
  destruct (load_callbacks_from_config files) as [callbacks|]; [|reflexivity].
  cbn zeta. rewrite (H callbacks eq_refl). reflexivity.
Qed.

Lemma unknown_event_has_no_subscribers callbacks event_type :
  event_type <> lit "connect" -> event_type <> lit "disconnect" ->
  Emit.get callbacks event_type = [].
Proof.
  intros H1 H2. unfold Emit.get, str_eqb.
  by rewrite !bool_decide_eq_false_2.
Qed.

Lemma fire_callbacks_without_subscribers_witness :
  (forall callbacks,
     load_callbacks_from_config subscribers = Ok callbacks ->
     Emit.get callbacks (lit "logout") = [])
  /\ fst (emit (fire_callbacks (lit "logout") JNull) (idle subscribers broken))
     = Ok tt.
Proof.
  assert (H : forall callbacks,
                load_callbacks_from_config subscribers = Ok callbacks ->
                Emit.get callbacks (lit "logout") = []).
  { intros callbacks _. apply unknown_event_has_no_subscribers;
      vm_compute; discriminate. }
  split; [exact H|].
  rewrite (fire_callbacks_without_subscribers subscribers broken _ JNull H).
  replace (load_callbacks_from_config subscribers)
    with (Ok {| connect := [JStr hook]; disconnect := [] |})
    by (vm_compute; reflexivity).
  reflexivity.
Defined.

(** *** The tools *)

Lemma lstrip_nil s : lstrip s = [] <-> forallb isspace s = true.
Proof.
  induction s as [|c s IH]; simpl; [tauto|].
  destruct (isspace c); simpl.
  - exact IH.
  - split; discriminate.
Qed.

Lemma lstrip_keeps s c : In c s -> isspace c = false -> lstrip s <> [].
Proof.
  intros Hin Hc H. apply lstrip_nil in H. rewrite forallb_forall in H.
  specialize (H c Hin). congruence.
Qed.

(** [not s.strip()] holds exactly of the strings made of whitespace. *)
Lemma blank_all_space s : blank s = true <-> forallb isspace s = true.
Proof.
  unfold blank, strip, rstrip. split.
  - intros H. destruct (forallb isspace s) eqn:E; [reflexivity|].
    exfalso.
    assert (Hex : exists c, In c s /\ isspace c = false).
    { clear H. induction s as [|a s IH]; simpl in E; [discriminate|].
      destruct (isspace a) eqn:Ea.
      - simpl in E. destruct (IH E) as (c & Hc & Hs). exists c. simpl. auto.
      - exists a. simpl. auto. }
    destruct Hex as (c & Hin & Hc).
    assert (Hl : exists c', In c' (lstrip s) /\ isspace c' = false).
    { clear H E. induction s as [|a s IH]; simpl in *; [tauto|].
      destruct (isspace a) eqn:Ea.
      - destruct Hin as [-> | Hin]; [congruence|]. apply IH, Hin.
      - exists a. simpl. auto. }
    destruct Hl as (c' & Hin' & Hc').
    assert (Hne : lstrip (rev (lstrip s)) <> []).
    { apply lstrip_keeps with c'; [|exact Hc']. apply in_rev.
      by rewrite rev_involutive. }
    destruct (lstrip (rev (lstrip s))) as [|x l] eqn:El; [congruence|].
    simpl in H. destruct (rev l ++ [x]) eqn:Er; [|discriminate].
    by apply app_eq_nil in Er as [_ ?].
  - intros H. apply lstrip_nil in H. rewrite H. reflexivity.
Qed.

Lemma blank_false_intro s c : In c s -> isspace c = false -> blank s = false.
Proof.
  intros Hin Hc. destruct (blank s) eqn:E; [|reflexivity].
  apply blank_all_space in E. rewrite forallb_forall in E.
  specialize (E c Hin). congruence.
Qed.

Lemma formatted_message_not_blank message expectation :
  blank (tools.formatted_message message expectation) = false.
Proof.
  apply blank_false_intro with 45.
  - unfold tools.formatted_message. apply in_or_app. right.
    apply in_or_app. right. apply in_or_app. right. apply in_or_app. left.
    vm_compute. auto.
  - reflexivity.
Qed.

Lemma accepted_formatted s r message expectation :
  accepted s r (tools.formatted_message message expectation)
  = negb (blank s) && negb (blank r).
Proof.
  unfold accepted. rewrite formatted_message_not_blank. apply andb_true_r.
Qed.

(** X12. With the expectation [no_response] the tool [send_message_and_wait]
    never waits. The content it sends ends with the expectation text, so it
    is never blank: the message is enqueued whenever sender and recipient
    are not blank, also for an empty [message]. The result of the send,
    an error included, comes back under the heading "Message sent". *)
Theorem tool_no_response (w : Process) (s r message : str) :
  let content := tools.formatted_message message (lit "no_response") in
  run (tools.send_message_and_wait s r message (lit "no_response")) w
  = (Returned (lit "📭 **Message sent** (no response expected)"
               ++ MessagingServer.NEWLINE ++ MessagingServer.NEWLINE
               ++ send_result s r content),
     if negb (blank s) && negb (blank r)
     then delivered w s r content
     else swept w s).
Proof.
  intros content. unfold tools.send_message_and_wait.
  rewrite str_eqb_refl, run_bind, run_send_message.
  fold content. unfold content at 2. rewrite accepted_formatted.
  reflexivity.
Qed.

(** X13. With any other expectation the tool sends and waits on the sender's
    mailbox, whatever the [message]: the content is never blank. An
    expectation that is not one of the three known is worded as
    [response_expected]. *)
Theorem tool_waits (w : Process) (s r message expectation : str) :
  reachable w -> expectation <> lit "no_response" ->
  blank s = false -> blank r = false ->
  let content := tools.formatted_message message expectation in
  let timeout := timeout_for w s (lit "send_message_and_wait") in
  run (tools.send_message_and_wait s r message expectation) w
  = (Suspended s timeout (MessagingServer.reply_after_wait s timeout),
     answered (Server.WaitForNewMessage s timeout)
       (delivered (looked_up w s) s r content))
  /\ mailbox (delivered (looked_up w s) s r content) r
     = default [] (kept w !! r) ++ [letter w s content]
  /\ (tools.expectation_text expectation = None ->
      content = tools.formatted_message message (lit "response_expected")).
Proof.
  intros Hw He Hs Hr content timeout. split; [|split].
  - unfold tools.send_message_and_wait, str_eqb.
    rewrite bool_decide_eq_false_2 by exact He.
    rewrite (run_send_message_and_wait_reachable _ _ _ Hw).
    unfold sent_and_waiting. fold content. unfold content at 1.
    rewrite accepted_formatted, Hs, Hr. reflexivity.
  - destruct (delivered_facts (looked_up w s) s r content) as (_ & Hq & _).
    unfold mailbox. rewrite Hq, mailbox_send_message.
    destruct (looked_up_backend w s) as (Hq' & He' & _ & Hc' & _).
    unfold kept, letter. rewrite Hq', He', Hc'. reflexivity.
  - intros Hnone. subst content. unfold tools.formatted_message.
    rewrite Hnone. reflexivity.
Qed.

Lemma tool_waits_witness :
  reachable boot /\ lit "whatever" <> lit "no_response"
  /\ blank alice = false /\ blank bob = false
  /\ mailbox (delivered (looked_up boot alice) alice bob
                (tools.formatted_message [] (lit "whatever"))) bob
     = default [] (kept boot !! bob)
       ++ [letter boot alice (tools.formatted_message [] (lit "whatever"))].
Proof.
  assert (He : lit "whatever" <> lit "no_response") by (vm_compute; discriminate).
  assert (Ha : blank alice = false) by (vm_compute; reflexivity).
  assert (Hb : blank bob = false) by (vm_compute; reflexivity).
  split; [exact reachable_boot|]. split; [exact He|].
  split; [exact Ha|]. split; [exact Hb|].
  exact (proj1 (proj2
    (@tool_waits boot alice bob [] (lit "whatever") reachable_boot He Ha Hb))).
Defined.

Lemma blocks_concat rel ms parts :
  blocks rel ms parts
  = parts ++ concat (List.map (fun m => MessagingServer.message_block m (rel (timestamp m)))
                       ms).
Proof.
  revert parts. induction ms as [|m ms IH]; intros parts; cbn [blocks List.map concat].
  - by rewrite app_nil_r.
  - by rewrite IH, <- app_assoc.
Qed.

(** X15. [_format_messages_as_markdown] lists the messages in the order of
    the mailbox, each once with its six lines, under a header that counts
    them; it asks for the relative time of each message once, in the same
    order. *)
Theorem format_messages_lists_in_order (w : Process) (client_id : str)
    (messages : list Message) :
  let r := run (MessagingServer._format_messages_as_markdown client_id messages) w in
  fst r
  = Returned
      (join MessagingServer.NEWLINE
         (MessagingServer.header client_id (N.of_nat (length messages)) :: []
          :: concat (List.map
                       (fun m => MessagingServer.message_block m
                                   (relative_time w (clock w) (timestamp m)))
                       messages)))
  /\ journal (snd r)
     = journal w
       ++ List.map (fun m => Server.FormatRelativeTime (timestamp m)) messages.
Proof.
  intros r. subst r. rewrite run_format. cbn [fst snd].
  split; [unfold markdown; by rewrite blocks_concat|].
  fold (time_calls messages). generalize (time_calls messages). intros cs.
  revert w. induction cs as [|c cs IH]; intros w; cbn [answered_all].
  - by rewrite app_nil_r.
  - by rewrite IH, journal_answered, <- app_assoc.
Qed.

(** *** Mailboxes over the runs of the process *)

Lemma from_method_notify r l :
  Forall from_method l -> Forall from_method (notify r <$> l).
Proof.
  intros H. apply Forall_fmap. eapply Forall_impl; [exact H|].
  intros wt Hwt. unfold notify. cbn. destruct (str_eqb (waiting_on wt) r); exact Hwt.
Qed.

Lemma preserves_refl w : preserves w w.
Proof. unfold preserves. tauto. Qed.

Lemma preserves_trans w1 w2 w3 : preserves w1 w2 -> preserves w2 w3 -> preserves w1 w3.
Proof.
  intros (Hc & He & Hf) (Hc' & He' & Hf').
  split; [congruence|]. split; [congruence|]. tauto.
Qed.

(** The calls that touch neither the mailboxes nor the waiters. *)
Lemma preserves_answered_quiet c w :
  match c with
  | Server.CleanupExpiredMessages | Server.SendMessage _ _
  | Server.NotifyNewMessage _ | Server.GetMessages _ _ => False
  | _ => True
  end ->
  preserves w (answered c w)
  /\ backend_queues (answered c w) = backend_queues w
  /\ suspended (answered c w) = suspended w.
Proof.
  destruct c; intros H; try (destruct H); unfold answered; cbn;
    (split; [unfold preserves; cbn; tauto|by split]).
Qed.

Lemma answered_env c w :
  clock (answered c w) = clock w
  /\ backend_expiration (answered c w) = backend_expiration w.
Proof. destruct c; unfold answered; cbn; by split. Qed.

Lemma preserves_looked_up w c : preserves w (looked_up w c).
Proof.
  destruct (looked_up_backend w c) as (Hq & He & Hs & Hc & _).
  unfold preserves. rewrite He, Hs, Hc. tauto.
Qed.

Lemma preserves_swept w s : preserves w (swept w s).
Proof.
  destruct (swept_facts w s) as (Hq & Hs & Hc & He & _).
  unfold preserves. rewrite He, Hs, Hc. tauto.
Qed.

Lemma clock_swept w s : clock (swept w s) = clock w.
Proof. by destruct (swept_facts w s) as (_ & _ & Hc & _). Qed.

Lemma expiration_swept w s : backend_expiration (swept w s) = backend_expiration w.
Proof. by destruct (swept_facts w s) as (_ & _ & _ & He & _). Qed.

Lemma delivered_env w s r c :
  clock (delivered w s r c) = clock w
  /\ backend_expiration (delivered w s r c) = backend_expiration w.
Proof.
  unfold delivered.
  destruct (answered_env (Server.NotifyNewMessage r)
              (answered (Server.SendMessage r (letter w s c))
                 (answered Server.DatetimeNow (swept w s)))) as [-> ->].
  destruct (answered_env (Server.SendMessage r (letter w s c))
              (answered Server.DatetimeNow (swept w s))) as [-> ->].
  destruct (answered_env Server.DatetimeNow (swept w s)) as [-> ->].
  by rewrite clock_swept, expiration_swept.
Qed.

Lemma preserves_delivered w s r c : preserves w (delivered w s r c).
Proof.
  destruct (delivered_facts w s r c) as (_ & Hq & Hs).
  destruct (delivered_env w s r c) as [Hc He].
  unfold preserves. rewrite He, Hs, Hc.
  split; [reflexivity|]. split; [reflexivity|]. apply from_method_notify.
Qed.

Lemma answered_all_time_calls ms w :
  backend_queues (answered_all (time_calls ms) w) = backend_queues w
  /\ suspended (answered_all (time_calls ms) w) = suspended w
  /\ clock (answered_all (time_calls ms) w) = clock w
  /\ backend_expiration (answered_all (time_calls ms) w) = backend_expiration w.
Proof.
  revert w. induction ms as [|m ms IH]; intros w; [by repeat split|].
  change (time_calls (m :: ms))
    with (Server.FormatRelativeTime (timestamp m) :: time_calls ms).
  cbn [answered_all].
  destruct (IH (answered (Server.FormatRelativeTime (timestamp m)) w))
    as (-> & -> & -> & ->).
  by repeat split.
Qed.

Lemma answered_pop c w :
  backend_queues (answered (Server.GetMessages c true) w) = delete c (backend_queues w)
  /\ suspended (answered (Server.GetMessages c true) w) = suspended w.
Proof. by split. Qed.

Lemma answered_wait c t w :
  backend_queues (answered (Server.WaitForNewMessage c t) w) = backend_queues w
  /\ suspended (answered (Server.WaitForNewMessage c t) w) = suspended w.
Proof. by split. Qed.

Lemma preserves_pop c w : preserves w (answered (Server.GetMessages c true) w).
Proof.
  destruct (answered_env (Server.GetMessages c true) w) as [Hc He].
  destruct (answered_pop c w) as [Hq Hs].
  unfold preserves. rewrite He, Hs, Hc. tauto.
Qed.

Lemma preserves_wait c t w : preserves w (answered (Server.WaitForNewMessage c t) w).
Proof.
  destruct (answered_env (Server.WaitForNewMessage c t) w) as [Hc He].
  destruct (answered_wait c t w) as [Hq Hs].
  unfold preserves. rewrite He, Hs, Hc. tauto.
Qed.

Lemma preserves_time_calls ms w : preserves w (answered_all (time_calls ms) w).
Proof.
  destruct (answered_all_time_calls ms w) as (Hq & Hs & Hc & He).
  unfold preserves. rewrite He, Hs, Hc. tauto.
Qed.

Lemma collect_returns e c w :
  exists result,
    fst (collect e c w) = Returned result
    /\ preserves w (snd (collect e c w))
    /\ backend_queues (snd (collect e c w)) = delete c (backend_queues w)
    /\ suspended (snd (collect e c w)) = suspended w.
Proof.
  unfold collect. destruct (mailbox w c) as [|m ms]; cbn [fst snd].
  - eexists. split; [reflexivity|]. split; [apply preserves_pop|apply answered_pop].
  - eexists. split; [reflexivity|].
    destruct (answered_all_time_calls (m :: ms) (answered (Server.GetMessages c true) w))
      as (Hq & Hs & _).
    split; [|by rewrite Hq, Hs].
    eapply preserves_trans; [apply preserves_pop|apply preserves_time_calls].
Qed.

(** What a method does up to its return or its suspension. *)
Lemma run_body_tidy op w :
  sound w ->
  preserves w (snd (run (body op) w))
  /\ match fst (run (body op) w) with
     | Returned _ => True
     | Crashed => False
     | Suspended c t k =>
       k = MessagingServer.messages_after_wait c
       \/ k = MessagingServer.reply_after_wait c t
     end.
Proof.
  intros (Hcfg & _). destruct op as [s r c|s r c|c]; cbn [body].
  - rewrite run_send_message. cbn [fst snd]. split; [|exact I].
    destruct (accepted s r c); [apply preserves_delivered|apply preserves_swept].
  - rewrite run_send_message_and_wait_any.
    destruct (resolved_well_formed s Hcfg) as (t1 & t2 & -> & _).
    unfold sent_and_waiting. destruct (accepted s r c); cbn [fst snd].
    + split; [|by right].
      eapply preserves_trans; [apply preserves_looked_up|].
      eapply preserves_trans; [apply preserves_delivered|apply preserves_wait].
    + split; [|exact I].
      eapply preserves_trans; [apply preserves_looked_up|apply preserves_swept].
  - rewrite (run_get_messages c Hcfg). unfold received.
    destruct (blank c); cbn [fst snd]; [split; [apply preserves_swept|exact I]|].
    destruct (mailbox (swept w c) c) as [|m ms] eqn:E; cbn [fst snd].
    + split; [|by left].
      eapply preserves_trans; [apply preserves_swept|].
      eapply preserves_trans; [apply preserves_pop|apply preserves_wait].
    + destruct (collect_returns no_messages c (swept w c)) as (res & Hres & Hp & _).
      split; [eapply preserves_trans; [apply preserves_swept|exact Hp]|].
      by rewrite Hres.
Qed.

(** A resumed caller returns. *)
Lemma run_resume_tidy wt b w :
  from_method wt ->
  exists result,
    fst (run (resume wt b) w) = Returned result
    /\ preserves w (snd (run (resume wt b) w)).
Proof.
  intros [-> | ->]; destruct b.
  - rewrite run_messages_true.
    destruct (collect_returns no_messages (waiting_on wt) w) as (res & H1 & H2 & _).
    by exists res.
  - rewrite run_messages_false. eexists. split; [reflexivity|apply preserves_refl].
  - rewrite run_reply_true.
    destruct (collect_returns no_response (waiting_on wt) w) as (res & H1 & H2 & _).
    by exists res.
  - rewrite run_reply_false. eexists. split; [reflexivity|].
    by apply preserves_answered_quiet.
Qed.

Lemma tidy_preserved w w' :
  tidy w -> sound w' -> preserves w w' -> tidy w'.
Proof.
  intros (_ & Hf & He) Hs (Hc' & He' & Hf').
  split; [exact Hs|]. split; [tauto|]. congruence.
Qed.

Lemma step_invoke op w :
  step (Invoke op) w
  = (Some (fst (settle (run (body op) w))), snd (settle (run (body op) w))).
Proof. cbn [step]. by destruct (settle (run (body op) w)). Qed.

Lemma tidy_settle_suspended c t k w :
  tidy w ->
  k = MessagingServer.messages_after_wait c
  \/ k = MessagingServer.reply_after_wait c t ->
  Forall from_method
    (suspended w ++ [{| waiting_on := c; wait_timeout := t; notified := false;
                        resume := k |}]).
Proof.
  intros (_ & Hf & _) Hk. apply Forall_app. split; [exact Hf|].
  apply Forall_singleton. exact Hk.
Qed.

Lemma tidy_step a w :
  tidy w ->
  tidy (snd (step a w))
  /\ (forall o, fst (step a w) = Some o ->
        match o with
        | Returned _ => True
        | Crashed => False
        | Suspended _ _ _ => exists op, a = Invoke op
        end).
Proof.
  intros Hw. pose proof Hw as (Hs & Hf & He).
  pose proof (sound_step a Hs) as Hs'.
  destruct a as [op|i|i|dt|d].
  - rewrite step_invoke in *. cbn [fst snd] in *.
    destruct (run_body_tidy op Hs) as [Hp Hk].
    destruct (run (body op) w) as [[res| |c t k] w1]; cbn [fst snd settle] in *.
    + split; [by apply (tidy_preserved Hw)|]. by intros o [= <-].
    + destruct Hk.
    + split; [|intros o [= <-]; by exists op].
      assert (Hw1 : tidy w1).
      { apply (tidy_preserved Hw); [|exact Hp]. destruct Hs' as (H1 & H2 & H3).
        split; [exact H1|]. split; [exact H2|]. cbn in H3.
        by apply Forall_app in H3 as [H3 _]. }
      split; [exact Hs'|]. split; [by apply tidy_settle_suspended|].
      by destruct Hw1 as (_ & _ & He1).
  - cbn [step] in *. destruct (suspended w !! i) as [wt|] eqn:Hi;
      [|split; [exact Hw|discriminate]].
    destruct (notified wt); [|split; [exact Hw|discriminate]].
    assert (Hwt : from_method wt) by (eapply Forall_lookup_1 in Hf; eauto).
    set (w0 := set_suspended (delete i (suspended w)) w) in *.
    assert (Hw0 : tidy w0).
    { split; [|split; [|exact He]].
      - destruct Hs as (H1 & H2 & H3). split; [exact H1|]. split; [exact H2|].
        by apply Forall_delete.
      - by apply Forall_delete. }
    destruct (run_resume_tidy true w0 Hwt) as (res & Hres & Hp).
    destruct (run (resume wt true) w0) as [o w1]. cbn [fst snd] in *. subst o.
    cbn [settle fst snd] in *.
    split; [by apply (tidy_preserved Hw0)|]. by intros o [= <-].
  - cbn [step] in *. destruct (suspended w !! i) as [wt|] eqn:Hi;
      [|split; [exact Hw|discriminate]].
    destruct (notified wt); [split; [exact Hw|discriminate]|].
    assert (Hwt : from_method wt) by (eapply Forall_lookup_1 in Hf; eauto).
    set (w0 := set_suspended (delete i (suspended w)) w) in *.
    assert (Hw0 : tidy w0).
    { split; [|split; [|exact He]].
      - destruct Hs as (H1 & H2 & H3). split; [exact H1|]. split; [exact H2|].
        by apply Forall_delete.
      - by apply Forall_delete. }
    destruct (run_resume_tidy false w0 Hwt) as (res & Hres & Hp).
    destruct (run (resume wt false) w0) as [o w1]. cbn [fst snd] in *. subst o.
    cbn [settle fst snd] in *.
    split; [by apply (tidy_preserved Hw0)|]. by intros o [= <-].
  - cbn [step fst snd]. split; [|discriminate]. by split.
  - cbn [step fst snd]. split; [|discriminate]. by split.
Qed.

Lemma tidy_start now d rel fmt : tidy (start now d rel fmt).
Proof.
  split; [apply sound_start|]. split; [constructor|]. reflexivity.
Qed.

Lemma tidy_steps acts w : tidy w -> tidy (steps acts w).
Proof.
  revert w. induction acts as [|a acts IH]; intros w Hw; [exact Hw|].
  cbn [steps]. apply IH. by apply tidy_step.
Qed.

Lemma reachable_tidy w : reachable w -> tidy w.
Proof.
  intros (now & d & rel & fmt & acts & ->). apply tidy_steps, tidy_start.
Qed.

(** X22. In every state of the process no operation raises out of the
    server's methods (the timeouts they read are always there), and a
    caller that was woken or whose wait timed out returns a result: only a
    fresh operation suspends, so no call waits twice. *)
Theorem operations_complete (w : Process) (a : Action) (o : Outcome str) :
  reachable w -> fst (step a w) = Some o ->
  match o with
  | Returned _ => True
  | Crashed => False
  | Suspended _ _ _ => exists op, a = Invoke op
  end.
Proof.
  intros Hw Ho. destruct (tidy_step a (reachable_tidy Hw)) as [_ H]. by apply H.
Qed.

Lemma operations_complete_witness :
  reachable boot
  /\ fst (step (Invoke (op_get_messages bob)) boot)
     = Some (Suspended bob (JNum 60) (MessagingServer.messages_after_wait bob))
  /\ exists op, Invoke (op_get_messages bob) = Invoke op.
Proof.
  assert (H : fst (step (Invoke (op_get_messages bob)) boot)
              = Some (Suspended bob (JNum 60)
                        (MessagingServer.messages_after_wait bob))).
  { rewrite step_invoke. cbn [body fst]. rewrite run_get_messages_boot. reflexivity. }
  split; [exact reachable_boot|]. split; [exact H|].
  exact (operations_complete (Invoke (op_get_messages bob)) reachable_boot H).
Defined.

Lemma filter_idem {A} (f : A -> bool) l :
  List.filter f (List.filter f l) = List.filter f l.
Proof.
  induction l as [|a l IH]; [reflexivity|]. cbn. destruct (f a) eqn:E; [|exact IH].
  cbn. by rewrite E, IH.
Qed.

Lemma kept_lookup w x :
  default [] (kept w !! x)
  = List.filter
      (fun m => negb (InMemoryQueueBackend.expired (backend_expiration w) (clock w) m))
      (mailbox w x).
Proof.
  unfold kept, mailbox, InMemoryQueueBackend.cleanup_expired_messages.
  rewrite lookup_fmap. by destruct (backend_queues w !! x).
Qed.

Lemma mailbox_swept w s x : mailbox (swept w s) x = default [] (kept w !! x).
Proof.
  unfold mailbox at 1. by destruct (swept_facts w s) as (-> & _).
Qed.

Lemma mailbox_delivered w s r c x :
  mailbox (delivered w s r c) x
  = default [] (kept w !! x) ++ (if str_eqb x r then [letter w s c] else []).
Proof.
  destruct (delivered_facts w s r c) as (_ & Hq & _).
  unfold mailbox, str_eqb. rewrite Hq. destruct (decide (x = r)) as [->|Hne].
  - rewrite bool_decide_eq_true_2 by reflexivity. apply mailbox_send_message.
  - rewrite bool_decide_eq_false_2 by exact Hne.
    unfold InMemoryQueueBackend.send_message.
    rewrite lookup_insert_ne by congruence. by rewrite app_nil_r.
Qed.

(** X16. After [send_message] every mailbox holds what the sweep left of it;
    the recipient's holds the new message at its end if the send was
    accepted. No other mailbox gets the message. *)
Theorem send_message_mailboxes (w : Process) (s r c x : str) :
  mailbox (snd (run (MessagingServer.send_message s r c) w)) x
  = default [] (kept w !! x)
    ++ (if accepted s r c && str_eqb x r then [letter w s c] else []).
Proof.
  rewrite run_send_message. cbn [snd]. destruct (accepted s r c); cbn [andb].
  - apply mailbox_delivered.
  - by rewrite mailbox_swept, app_nil_r.
Qed.







Lemma reachable_step a w : reachable w -> reachable (snd (step a w)).
Proof. intros Hw. exact (reachable_steps [a] Hw). Qed.


Lemma accepted_sender s r c : accepted s r c = true -> blank s = false.
Proof.
  unfold accepted. destruct (blank s), (blank r), (blank c); cbn; congruence.
Qed.

Lemma step_get_messages w c :
  reachable w ->
  step (Invoke (op_get_messages c)) w
  = (Some (fst (settle (received w c))), snd (settle (received w c))).
Proof.
  intros Hw. rewrite step_invoke. cbn [body].
  by rewrite (run_get_messages_reachable c Hw).
Qed.

(** What the server gives a client that asks while messages are there. *)
Lemma received_some w c m ms :
  blank c = false -> default [] (kept w !! c) = m :: ms ->
  settle (received w c)
  = (Returned (markdown (relative_time w (clock w)) c (m :: ms)),
     answered_all (time_calls (m :: ms))
       (answered (Server.GetMessages c true) (swept w c))).
Proof.
  intros Hc Hk. unfold received. rewrite Hc, mailbox_swept, Hk.
  unfold collect. rewrite mailbox_swept, Hk.
  destruct (swept_facts w c) as (_ & _ & -> & _ & -> & _). reflexivity.
Qed.

(** What the server does with a client that asks while there is nothing. *)
Lemma received_none w c :
  blank c = false -> default [] (kept w !! c) = [] ->
  settle (received w c)
  = (Suspended c (timeout_for w c (lit "get_messages"))
       (MessagingServer.messages_after_wait c),
     set_suspended
       (suspended w
        ++ [{| waiting_on := c;
               wait_timeout := timeout_for w c (lit "get_messages");
               notified := false;
               resume := MessagingServer.messages_after_wait c |}])
       (answered (Server.WaitForNewMessage c (timeout_for w c (lit "get_messages")))
          (answered (Server.GetMessages c true) (swept w c)))).
Proof.
  intros Hc Hk. unfold received. rewrite Hc, mailbox_swept, Hk. cbn [settle].
  rewrite (proj2 (answered_wait c (timeout_for w c (lit "get_messages")) _)).
  rewrite (proj2 (answered_pop c _)).
  destruct (swept_facts w c) as (_ & -> & _). reflexivity.
Qed.

Lemma mailbox_popped c w :
  mailbox (answered (Server.GetMessages c true) w) c = [].
Proof.
  unfold mailbox. rewrite (proj1 (answered_pop c w)). by rewrite lookup_delete_eq.
Qed.


Lemma mailbox_time_calls ms w x :
  mailbox (answered_all (time_calls ms) w) x = mailbox w x.
Proof.
  unfold mailbox. by destruct (answered_all_time_calls ms w) as (-> & _).
Qed.

Lemma mailbox_after_get w c :
  blank c = false -> mailbox (snd (settle (received w c))) c = [].
Proof.
  intros Hc. destruct (default [] (kept w !! c)) as [|m ms] eqn:Hk.
  - rewrite (@received_none w c Hc Hk). cbn [snd]. unfold mailbox. cbn.
    by rewrite lookup_delete_eq.
  - rewrite (@received_some w c m ms Hc Hk). cbn [snd].
    rewrite mailbox_time_calls. apply mailbox_popped.
Qed.



(** X18. [get_messages] leaves nothing behind: after the call the client's
    mailbox is empty, whether the call returned messages or went to wait,
    and a second call finds nothing and waits. *)
Theorem get_messages_drains (w : Process) (client_id : str) :
  reachable w -> blank client_id = false ->
  let w1 := snd (step (Invoke (op_get_messages client_id)) w) in
  mailbox w1 client_id = []
  /\ fst (step (Invoke (op_get_messages client_id)) w1)
     = Some (Suspended client_id (timeout_for w1 client_id (lit "get_messages"))
               (MessagingServer.messages_after_wait client_id)).
Proof.
  intros Hw Hc w1.
  assert (Hw1 : reachable w1) by (by apply reachable_step).
  assert (Hm : mailbox w1 client_id = []).
  { subst w1. rewrite (step_get_messages client_id Hw). cbn [snd].
    by apply mailbox_after_get. }
  split; [exact Hm|].
  rewrite (step_get_messages client_id Hw1). cbn [fst].
  rewrite received_none; [reflexivity|exact Hc|].
  by rewrite kept_lookup, Hm.
Qed.

Lemma get_messages_drains_witness :
  reachable stale /\ blank bob = false
  /\ mailbox stale bob = [letter boot alice (lit "hi")]
  /\ mailbox (snd (step (Invoke (op_get_messages bob)) stale)) bob = [].
Proof.
  assert (Hs : reachable stale) by (apply reachable_steps, reachable_boot).
  assert (Hb : blank bob = false) by (vm_compute; reflexivity).
  split; [exact Hs|]. split; [exact Hb|].
  split; [vm_compute; reflexivity|].
  exact (proj1 (@get_messages_drains stale bob Hs Hb)).
Defined.

Lemma same_env_refl w : same_env w w.
Proof. by repeat split. Qed.







Lemma same_env_kept w w' x :
  same_env w w' -> mailbox w' x = default [] (kept w !! x) ->
  default [] (kept w' !! x) = default [] (kept w !! x).
Proof.
  intros (_ & Hc & He) Hm. rewrite (kept_lookup w'), Hm, Hc, He.
  by rewrite kept_lookup, filter_idem.
Qed.












